(** * PagerDuty chat assistant: the tool-calling conversation loop

    A shallow embedding of the three TypeScript modules that make up the
    chat core of the repository:

    - [lib/mcp]        (src/unnamed/part_000): the tool registry client,
                       [getMCPClient] and [callMCPTool];
    - [api/chat/route] (src/unnamed/part_002): the [POST] handler with the
                       tool-calling loop;
    - [app/page.tsx]   (src/page.tsx): the chat surface, [sendMessage].

    JavaScript is modelled with explicit state passing.  A computation is a
    function from the process state to a completion and a new state; a
    completion is a value, a thrown error, or [Pending] when the fuel given
    to the [while (true)] loop ran out.  Arrays live in a store and are
    handled through references, so that aliasing and in-place [push] are
    visible.  The collaborators that are not code of this repository (the
    MCP SDK, the model backend, [JSON.parse], [JSON.stringify], [URL]) are
    the fields of an environment record over an arbitrary world type. *)

From Stdlib Require Import Ascii String ZArith.
From stdpp Require Import base gmap strings list pretty.

Set Default Proof Using "Type".
Set Warnings "-register-all".
Open Scope string_scope.
Open Scope list_scope.

(** ** JavaScript values used by the code *)

Inductive JSON : Type :=
| JNull
| JBool (b : bool)
| JNumber (n : Z)
| JString (s : string)
| JArray (items : list JSON)
| JObject (fields : list (string * JSON)).

(** An [Error] object: the code only ever reads [err.message]. *)
Record JsError : Type := mkError { err_name : string; err_message : string }.

(** Completion of a call into a collaborator: it returns (resolves) or it
    throws (rejects). *)
Inductive Outcome (A : Type) : Type :=
| Value (a : A)
| Raised (e : JsError).
Arguments Value {A} a.
Arguments Raised {A} e.

(** ** Reading and printing JSON text

    [JSON.parse] and [JSON.stringify] are builtins; the development is
    parametric in them.  The reader and printer below cover the fragment
    of JSON with integer numbers and strings without escape sequences, and
    are what the worked scenarios run with. *)

Module JsonText.

Definition quote : ascii := ascii_of_nat 34.

Definition is_digit (c : ascii) : bool :=
  (48 <=? nat_of_ascii c)%nat && (nat_of_ascii c <=? 57)%nat.

Definition is_space (c : ascii) : bool :=
  bool_decide (nat_of_ascii c ∈ [32; 9; 10; 13]%nat).

Fixpoint skip_ws (s : list ascii) : list ascii :=
  match s with
  | c :: r => if is_space c then skip_ws r else s
  | [] => []
  end.

(** [eat p s]: [s] without its prefix [p], when it starts with [p]. *)
Fixpoint eat (p s : list ascii) : option (list ascii) :=
  match p, s with
  | [], _ => Some s
  | a :: p', b :: s' => if Ascii.eqb a b then eat p' s' else None
  | _ :: _, [] => None
  end.

(** The characters up to the closing quote. *)
Fixpoint scan_string (s : list ascii) : option (list ascii * list ascii) :=
  match s with
  | [] => None
  | c :: r =>
      if Ascii.eqb c quote then Some ([], r)
      else if Ascii.eqb c "\"%char then None
      else match scan_string r with
           | Some (x, r') => Some (c :: x, r')
           | None => None
           end
  end.

Fixpoint scan_digits (acc : Z) (s : list ascii) : Z * list ascii :=
  match s with
  | c :: r =>
      if is_digit c
      then scan_digits (10 * acc + (Z.of_nat (nat_of_ascii c) - 48))%Z r
      else (acc, s)
  | [] => (acc, [])
  end.

Definition scan_number (s : list ascii) : option (Z * list ascii) :=
  match s with
  | c :: r =>
      if Ascii.eqb c "-"%char then
        match r with
        | d :: _ => if is_digit d
                    then let '(n, r') := scan_digits 0 r in Some ((- n)%Z, r')
                    else None
        | [] => None
        end
      else if is_digit c then Some (scan_digits 0 s)
      else None
  | [] => None
  end.

Definition chars (s : string) : list ascii := list_ascii_of_string s.

Fixpoint parse_value (fuel : nat) (s : list ascii) : option (JSON * list ascii) :=
  match fuel with
  | 0 => None
  | S n =>
      let s := skip_ws s in
      match eat (chars "null") s, eat (chars "true") s, eat (chars "false") s with
      | Some r, _, _ => Some (JNull, r)
      | _, Some r, _ => Some (JBool true, r)
      | _, _, Some r => Some (JBool false, r)
      | None, None, None =>
          match s with
          | [] => None
          | c :: r =>
              if Ascii.eqb c quote then
                match scan_string r with
                | Some (x, r') => Some (JString (string_of_list_ascii x), r')
                | None => None
                end
              else if Ascii.eqb c "["%char then
                match eat (chars "]") (skip_ws r) with
                | Some r' => Some (JArray [], r')
                | None =>
                    match parse_items n r with
                    | Some (xs, r') => Some (JArray xs, r')
                    | None => None
                    end
                end
              else if Ascii.eqb c "{"%char then
                match eat (chars "}") (skip_ws r) with
                | Some r' => Some (JObject [], r')
                | None =>
                    match parse_fields n r with
                    | Some (fs, r') => Some (JObject fs, r')
                    | None => None
                    end
                end
              else
                match scan_number s with
                | Some (z, r') => Some (JNumber z, r')
                | None => None
                end
          end
      end
  end
with parse_items (fuel : nat) (s : list ascii) : option (list JSON * list ascii) :=
  match fuel with
  | 0 => None
  | S n =>
      match parse_value n s with
      | None => None
      | Some (v, r) =>
          let r := skip_ws r in
          match eat (chars ",") r, eat (chars "]") r with
          | Some r', _ =>
              match parse_items n r' with
              | Some (vs, r'') => Some (v :: vs, r'')
              | None => None
              end
          | None, Some r' => Some ([v], r')
          | None, None => None
          end
      end
  end
with parse_fields (fuel : nat) (s : list ascii)
    : option (list (string * JSON) * list ascii) :=
  match fuel with
  | 0 => None
  | S n =>
      match skip_ws s with
      | c :: r =>
          if Ascii.eqb c quote then
            match scan_string r with
            | None => None
            | Some (k, r1) =>
                match eat (chars ":") (skip_ws r1) with
                | None => None
                | Some r2 =>
                    match parse_value n r2 with
                    | None => None
                    | Some (v, r3) =>
                        let key := string_of_list_ascii k in
                        let r3 := skip_ws r3 in
                        match eat (chars ",") r3, eat (chars "}") r3 with
                        | Some r4, _ =>
                            match parse_fields n r4 with
                            | Some (fs, r5) => Some ((key, v) :: fs, r5)
                            | None => None
                            end
                        | None, Some r4 => Some ([(key, v)], r4)
                        | None, None => None
                        end
                    end
                end
            end
          else None
      | [] => None
      end
  end.

Definition syntax_error (text : string) : JsError :=
  mkError "SyntaxError" ("Unexpected token in JSON: " +:+ text).

Definition parse (text : string) : Outcome JSON :=
  match parse_value (S (String.length text)) (chars text) with
  | Some (v, r) =>
      match skip_ws r with
      | [] => Value v
      | _ :: _ => Raised (syntax_error text)
      end
  | None => Raised (syntax_error text)
  end.

Definition quoted (s : string) : string :=
  String quote s +:+ String quote "".

Definition join (sep : string) (xs : list string) : string :=
  match xs with
  | [] => ""
  | x :: r => fold_left (λ acc y, acc +:+ sep +:+ y) r x
  end.

Fixpoint stringify (v : JSON) : string :=
  match v with
  | JNull => "null"
  | JBool true => "true"
  | JBool false => "false"
  | JNumber n => pretty n
  | JString s => quoted s
  | JArray xs => "[" +:+ join "," (map stringify xs) +:+ "]"
  | JObject fs =>
      "{" +:+ join "," (map (λ kv, quoted (fst kv) +:+ ":" +:+ stringify (snd kv)) fs)
          +:+ "}"
  end.

End JsonText.

(** ** Data model (spec section 3) *)

Record ToolDescriptor : Type := mkTool {
  tool_name : string;
  tool_description : string;
  tool_inputSchema : JSON
}.

(** [{ id, function: { name, arguments } }]; [arguments] is the raw string
    proposed by the model. *)
Record ToolCall : Type := mkCall {
  call_id : string;
  call_function_name : string;
  call_function_arguments : string
}.

Inductive Role : Type := user | assistant | tool | system.

(** A chat message as a JavaScript object with optional fields; [None]
    stands for an absent ([undefined] or [null]) field. *)
Record Message : Type := mkMessage {
  msg_role : Role;
  msg_content : option string;
  msg_tool_calls : option (list ToolCall);
  msg_tool_call_id : option string
}.

Record ToolSchema : Type := mkSchema {
  schema_type : string;
  schema_function_name : string;
  schema_function_description : string;
  schema_function_parameters : JSON
}.

(** Request and response of [openai.chat.completions.create]. *)
Record ChatRequest : Type := mkChatRequest {
  req_model : option string;
  req_messages : list Message;
  req_tools : list ToolSchema;
  req_tool_choice : string;
  req_temperature : string
}.

Record ChatResponse : Type := mkChatResponse { choices : list Message }.

Record ToolResult : Type := mkToolResult { result_content : JSON }.

(** [process.env]: every variable may be unset. *)
Record Config : Type := mkConfig {
  MCP_SERVER_URL : option string;
  OPENAI_API_KEY : option string;
  OPENAI_API_BASE : option string;
  OPENAI_MODEL : option string
}.

(** The options of [new OpenAI({ apiKey, baseURL })] (part_002 lines
    5-8): the two environment variables as they are.  A client that the
    constructor returns is identified with the options it was built
    from; [openai cfg] is the client the handler uses.  The constructor
    call itself, which is run when the module is loaded and which throws
    when it is given no key, is [RouteModule.load] below: the handler
    only ever runs in a module that was loaded. *)
Record OpenAI : Type := mkOpenAI { apiKey : option string; baseURL : option string }.

Definition openai (cfg : Config) : OpenAI :=
  {| apiKey := OPENAI_API_KEY cfg; baseURL := OPENAI_API_BASE cfg |}.

Record URL : Type := mkURL { href : string }.

Definition ClientRef : Type := nat.
Definition loc : Type := nat.

(** ** The collaborators

    [W] is the state of everything outside the process: the tool provider,
    the model backend, the network.  Each call may change it and may
    throw. *)
Record Env (W : Type) : Type := mkEnv {
  URL_new : string → Outcome URL;
  JSON_parse : string → Outcome JSON;
  JSON_stringify : JSON → string;
  Client_connect : ClientRef → URL → W → W * Outcome unit;
  Client_listTools : ClientRef → W → W * Outcome (list ToolDescriptor);
  Client_callTool : ClientRef → string → JSON → W → W * Outcome ToolResult;
  chat_completions_create : OpenAI → ChatRequest → W → W * Outcome ChatResponse
}.
Arguments URL_new {W} _ _.
Arguments JSON_parse {W} _ _.
Arguments JSON_stringify {W} _ _.
Arguments Client_connect {W} _ _ _ _.
Arguments Client_listTools {W} _ _ _.
Arguments Client_callTool {W} _ _ _ _ _.
Arguments chat_completions_create {W} _ _ _ _.

(** Calls that leave the process, in the order they are made. *)
Inductive Event : Type :=
| EvConnect (c : ClientRef) (url : URL)
| EvListTools (c : ClientRef)
| EvCallTool (c : ClientRef) (name : string) (args : JSON)
| EvChat (client : OpenAI) (req : ChatRequest).

Definition is_chat (ev : Event) : bool :=
  match ev with EvChat _ _ => true | _ => false end.

(** Number of model invocations recorded in a log. *)
Definition model_calls (l : list Event) : nat := length (filter is_chat l).

(** ** Process state *)

Record St (W : Type) : Type := mkSt {
  world : W;
  mcpClient : option ClientRef;          (* part_000 line 4 *)
  tools : loc;                           (* part_000 line 5: a reference *)
  clients : nat;                         (* Client objects built so far *)
  tool_arrays : gmap loc (list ToolDescriptor);
  msg_arrays : gmap loc (list Message);
  log : list Event
}.
Arguments mkSt {W}.
Arguments world {W}.
Arguments mcpClient {W}.
Arguments tools {W}.
Arguments clients {W}.
Arguments tool_arrays {W}.
Arguments msg_arrays {W}.
Arguments log {W}.

(** Completion of a computation. *)
Inductive Res (A : Type) : Type :=
| Ret (a : A)
| Throw (e : JsError)
| Pending.
Arguments Ret {A} a.
Arguments Throw {A} e.
Arguments Pending {A}.

Section Monad.
Context {W : Type}.

Definition M (A : Type) : Type := St W → Res A * St W.

Definition ret {A} (a : A) : M A := λ s, (Ret a, s).

Definition bind {A B} (m : M A) (f : A → M B) : M B := λ s,
  match m s with
  | (Ret a, s') => f a s'
  | (Throw e, s') => (Throw e, s')
  | (Pending, s') => (Pending, s')
  end.

Definition throw {A} (e : JsError) : M A := λ s, (Throw e, s).

Definition pending {A} : M A := λ s, (Pending, s).

(** [try { m } catch (err) { h err }] *)
Definition try_catch {A} (m : M A) (h : JsError → M A) : M A := λ s,
  match m s with
  | (Throw e, s') => h e s'
  | r => r
  end.

Definition gets {A} (f : St W → A) : M A := λ s, (Ret (f s), s).

Definition modify (f : St W → St W) : M unit := λ s, (Ret tt, f s).

(** A synchronous builtin that may throw. *)
Definition lift {A} (o : Outcome A) : M A :=
  match o with
  | Value a => ret a
  | Raised e => throw e
  end.

(** [await] of a call into a collaborator: the world moves, the call is
    logged, and a rejection is rethrown. *)
Definition await {A} (ev : Event) (call : W → W * Outcome A) : M A := λ s,
  let '(w', o) := call (world s) in
  let s' := mkSt w' (mcpClient s) (tools s) (clients s)
                 (tool_arrays s) (msg_arrays s) (log s ++ [ev]) in
  match o with
  | Value a => (Ret a, s')
  | Raised e => (Throw e, s')
  end.

(** *** Module variables of lib/mcp *)

Definition set_mcpClient (c : ClientRef) : M unit :=
  modify (λ s, mkSt (world s) (Some c) (tools s) (clients s)
                    (tool_arrays s) (msg_arrays s) (log s)).

Definition set_tools (l : loc) : M unit :=
  modify (λ s, mkSt (world s) (mcpClient s) l (clients s)
                    (tool_arrays s) (msg_arrays s) (log s)).

(** [new Client(...)]: a new object, no I/O. *)
Definition new_Client : M ClientRef := λ s,
  (Ret (clients s),
   mkSt (world s) (mcpClient s) (tools s) (S (clients s))
        (tool_arrays s) (msg_arrays s) (log s)).

(** *** Arrays *)

Definition new_tool_array (xs : list ToolDescriptor) : M loc := λ s,
  let l := fresh (dom (tool_arrays s)) in
  (Ret l,
   mkSt (world s) (mcpClient s) (tools s) (clients s)
        (<[l := xs]> (tool_arrays s)) (msg_arrays s) (log s)).

Definition read_tool_array (l : loc) : M (list ToolDescriptor) :=
  gets (λ s, default [] (tool_arrays s !! l)).

Definition new_msg_array (xs : list Message) : M loc := λ s,
  let l := fresh (dom (msg_arrays s)) in
  (Ret l,
   mkSt (world s) (mcpClient s) (tools s) (clients s)
        (tool_arrays s) (<[l := xs]> (msg_arrays s)) (log s)).

Definition read_msg_array (l : loc) : M (list Message) :=
  gets (λ s, default [] (msg_arrays s !! l)).

(** The same process with another store of message arrays. *)
Definition with_msgs (h : gmap loc (list Message)) (s : St W) : St W :=
  mkSt (world s) (mcpClient s) (tools s) (clients s) (tool_arrays s) h (log s).

(** [arr.push(m)]: in-place append to the array behind [l]. *)
Definition push (l : loc) (m : Message) : M unit :=
  modify (λ s, mkSt (world s) (mcpClient s) (tools s) (clients s)
                    (tool_arrays s)
                    (alter (λ xs, xs ++ [m]) l (msg_arrays s)) (log s)).
End Monad.

Declare Scope js_scope.
Delimit Scope js_scope with js.
Notation "x ← m ; k" := (bind m (λ x, k))
  (at level 20, m at level 100, k at level 200, only parsing) : js_scope.
Notation "' x ← m ; k" := (bind m (λ x, k))
  (at level 20, x pattern, m at level 100, k at level 200, only parsing) : js_scope.
Notation "m ;; k" := (bind m (λ _, k))
  (at level 100, k at level 200, right associativity, only parsing) : js_scope.
Open Scope js_scope.

(** ** lib/mcp: the tool registry client (src/unnamed/part_000) *)

Module Registry.
Section Registry.
Context {W : Type} (env : Env W) (cfg : Config).

(** [String(process.env.MCP_SERVER_URL)]: what [new URL] sees. *)
Definition url_argument : string := default "undefined" (MCP_SERVER_URL cfg).

Definition getMCPClient : M (W:=W) (ClientRef * loc) :=
  mc ← gets mcpClient;
  match mc with
  | Some c =>                                       (* line 8 *)
      t ← gets tools; ret (c, t)
  | None =>
      transport ← lift (URL_new env url_argument);  (* lines 10-12 *)
      c ← new_Client;                               (* lines 14-22 *)
      set_mcpClient c;;
      await (EvConnect c transport)
            (Client_connect env c transport);;      (* line 24 *)
      toolsResp ← await (EvListTools c)
                        (Client_listTools env c);   (* line 26 *)
      t ← new_tool_array toolsResp;
      set_tools t;;                                 (* line 27 *)
      t' ← gets tools;
      ret (c, t')                                   (* line 30 *)
  end.

Definition callMCPTool (name : string) (args : JSON) : M (W:=W) ToolResult :=
  '(client, _) ← getMCPClient;
  await (EvCallTool client name args) (Client_callTool env client name args).
End Registry.
End Registry.

(** ** api/chat/route: the conversation loop (src/unnamed/part_002) *)

(** The body of [POST /api/chat] and its answer. *)
Record NextRequest : Type := mkRequest { body_messages : list Message }.
Record Response : Type := mkResponse { content : string }.

Module ChatRoute.
Section ChatRoute.
Context {W : Type} (env : Env W) (cfg : Config).

(** [await req.json()] builds the body's array anew on every request. *)
Definition req_json (req : NextRequest) : M (W:=W) loc :=
  new_msg_array (body_messages req).

(** Lines 15-22: one schema per descriptor. *)
Definition toolSchema (t : ToolDescriptor) : ToolSchema :=
  {| schema_type := "function";
     schema_function_name := tool_name t;
     schema_function_description := tool_description t;
     schema_function_parameters := tool_inputSchema t |}.

(** [[...messages]]: a new array with the same elements. *)
Definition spread (messages : loc) : M (W:=W) loc :=
  xs ← read_msg_array messages; new_msg_array xs.

(** [!message.tool_calls || message.tool_calls.length === 0] *)
Definition no_tool_calls (message : Message) : bool :=
  match msg_tool_calls message with
  | None => true
  | Some calls => bool_decide (length calls = 0)
  end.

(** [message.content || "No response."]: the empty string is falsy. *)
Definition content_or_sentinel (message : Message) : string :=
  match msg_content message with
  | None => "No response."
  | Some c => if bool_decide (c = "") then "No response." else c
  end.

Definition tool_message (id : string) (text : string) : Message :=
  {| msg_role := tool; msg_content := Some text;
     msg_tool_calls := None; msg_tool_call_id := Some id |}.

(** Lines 47-64: the body of the [for] loop for one [toolCall]. *)
Definition run_tool_call (currentMessages : loc) (toolCall : ToolCall)
    : M (W:=W) unit :=
  let toolName := call_function_name toolCall in
  toolArgs ← lift (JSON_parse env (call_function_arguments toolCall));
  try_catch
    (result ← Registry.callMCPTool env cfg toolName toolArgs;
     push currentMessages
          (tool_message (call_id toolCall)
                        (JSON_stringify env (result_content result))))
    (λ err,
     push currentMessages
          (tool_message (call_id toolCall)
                        ("Error: " +:+ err_message err))).

(** Lines 46-65: [for (const toolCall of message.tool_calls)]. *)
Fixpoint for_tool_calls (currentMessages : loc) (tool_calls : list ToolCall)
    : M (W:=W) unit :=
  match tool_calls with
  | [] => ret tt
  | toolCall :: rest =>
      run_tool_call currentMessages toolCall;;
      for_tool_calls currentMessages rest
  end.

Definition chat_request (toolSchemas : list ToolSchema) (msgs : list Message)
    : ChatRequest :=
  {| req_model := OPENAI_MODEL cfg;
     req_messages := msgs;
     req_tools := toolSchemas;
     req_tool_choice := "auto";
     req_temperature := "0.7" |}.

(** [response.choices[0].message]: reading [message] of [undefined]
    throws a [TypeError]. *)
Definition first_choice (response : ChatResponse) : M (W:=W) Message :=
  match choices response with
  | message :: _ => ret message
  | [] => throw (mkError "TypeError"
                   "Cannot read properties of undefined (reading 'message')")
  end.

(** One pass through the body of [while (true)], lines 29-65: [Some c]
    when the pass ends in [break] with [finalResponse = c], [None] when
    it reaches the end of the body. *)
Definition iteration (toolSchemas : list ToolSchema) (currentMessages : loc)
    : M (W:=W) (option string) :=
  msgs ← read_msg_array currentMessages;
  response ← await (EvChat (openai cfg) (chat_request toolSchemas msgs))
                   (chat_completions_create env (openai cfg)
                                            (chat_request toolSchemas msgs));
  message ← first_choice response;
  push currentMessages message;;
  if no_tool_calls message then ret (Some (content_or_sentinel message))
  else
    for_tool_calls currentMessages (default [] (msg_tool_calls message));;
    ret None.

(** [while (true)] with [fuel] passes allowed. *)
Fixpoint tool_loop (fuel : nat) (toolSchemas : list ToolSchema)
    (currentMessages : loc) : M (W:=W) string :=
  match fuel with
  | 0 => pending
  | S fuel' =>
      r ← iteration toolSchemas currentMessages;
      match r with
      | Some finalResponse => ret finalResponse
      | None => tool_loop fuel' toolSchemas currentMessages
      end
  end.

Definition POST (fuel : nat) (req : NextRequest) : M (W:=W) Response :=
  messages ← req_json req;
  '(_, tools) ← Registry.getMCPClient env cfg;
  ts ← read_tool_array tools;
  let toolSchemas := map toolSchema ts in
  currentMessages ← spread messages;
  finalResponse ← tool_loop fuel toolSchemas currentMessages;
  ret {| content := finalResponse |}.
End ChatRoute.
End ChatRoute.

(** ** The route module as the server loads it (part_002 lines 1-10) *)

Module RouteModule.
Section RouteModule.
Context {W : Type} (env : Env W) (cfg : Config).
(** [new OpenAI(options)], the constructor of the model SDK: it returns
    a client or throws. *)
Context (new_OpenAI : OpenAI → Outcome OpenAI).

(** Lines 5-8, evaluated when the module is loaded. *)
Definition load : Outcome OpenAI := new_OpenAI (openai cfg).

(** A request to [/api/chat]: the module is loaded, and only then is
    [POST] called.  When loading throws, the request fails with that
    error and the handler does not run. *)
Definition handle (fuel : nat) (req : NextRequest) : M (W:=W) Response :=
  match load with
  | Value _ => ChatRoute.POST env cfg fuel req
  | Raised e => throw e
  end.

End RouteModule.
End RouteModule.

(** ** A scripted world for the worked scenarios

    The world counts the model invocations made so far, and the
    connection attempts that the tool provider will still refuse before
    it is back.  The model's answer to invocation [n] is [reply n].  The
    tool provider knows two tools and rejects every other name. *)

Module Sample.

Record World : Type := mkWorld { asked : nat; outage : nat }.

Definition is_alpha (c : ascii) : bool :=
  let n := nat_of_ascii c in
  ((65 <=? n) && (n <=? 90) || (97 <=? n) && (n <=? 122))%nat.

(** The rest of a scheme, up to its colon. *)
Fixpoint scheme_rest (s : list ascii) : bool :=
  match s with
  | [] => false
  | c :: r =>
      if Ascii.eqb c ":"%char then true
      else if is_alpha c || JsonText.is_digit c
              || bool_decide (c ∈ ["+"; "-"; "."]%char)
           then scheme_rest r
           else false
  end.

(** An absolute URL starts with a scheme. *)
Definition parse_URL (text : string) : Outcome URL :=
  match JsonText.chars text with
  | c :: r =>
      if is_alpha c && scheme_rest r then Value (mkURL text)
      else Raised (mkError "TypeError" "Invalid URL")
  | [] => Raised (mkError "TypeError" "Invalid URL")
  end.

Definition list_services : ToolDescriptor :=
  mkTool "list_services" "List the services" (JObject [("type", JString "object")]).

Definition acknowledge_incident : ToolDescriptor :=
  mkTool "acknowledge_incident" "Acknowledge an incident"
         (JObject [("type", JString "object")]).

Definition provider (c : ClientRef) (name : string) (args : JSON) (w : World)
    : World * Outcome ToolResult :=
  if bool_decide (name = "list_services") then
    (w, Value (mkToolResult
                 (JObject [("services", JArray [JObject [("id", JString "S1")]])])))
  else if bool_decide (name = "acknowledge_incident") then
    (w, Value (mkToolResult (JObject [("status", JString "acknowledged")])))
  else (w, Raised (mkError "McpError" ("Unknown tool: " +:+ name))).

Definition env (reply : nat → Outcome ChatResponse) : Env World :=
  {| URL_new := parse_URL;
     JSON_parse := JsonText.parse;
     JSON_stringify := JsonText.stringify;
     Client_connect := λ _ _ w,
       match outage w with
       | 0 => (w, Value tt)
       | S more => (mkWorld (asked w) more, Raised (mkError "Error" "fetch failed"))
       end;
     Client_listTools := λ _ w, (w, Value [list_services; acknowledge_incident]);
     Client_callTool := provider;
     chat_completions_create := λ _ _ w,
       (mkWorld (S (asked w)) (outage w), reply (asked w)) |}.

(** Answers given in order; the backend fails once they are used up. *)
Definition script (answers : list Message) (n : nat) : Outcome ChatResponse :=
  match answers !! n with
  | Some m => Value (mkChatResponse [m])
  | None => Raised (mkError "APIConnectionError" "Connection error.")
  end.

(** The SDK's constructor: no client without a key; the base URL is
    optional. *)
Definition new_OpenAI (options : OpenAI) : Outcome OpenAI :=
  match apiKey options with
  | Some _ => Value options
  | None =>
      Raised (mkError "OpenAIError"
                "The OPENAI_API_KEY environment variable is missing or empty")
  end.

Definition cfg : Config :=
  {| MCP_SERVER_URL := Some "http://localhost:8000/mcp";
     OPENAI_API_KEY := Some "sk-local";
     OPENAI_API_BASE := Some "http://localhost:1234/v1";
     OPENAI_MODEL := Some "gpt-4o-mini" |}.

(** The process right after the modules are loaded: no client, and
    [tools] bound to a first, empty array. *)
Definition boot : St World :=
  mkSt (mkWorld 0 0) None 0 0 {[ 0 := [] ]} ∅ [].

(** The same, while the tool provider refuses one connection. *)
Definition boot_during_outage : St World :=
  mkSt (mkWorld 0 1) None 0 0 {[ 0 := [] ]} ∅ [].

Definition says (text : string) : Message :=
  mkMessage assistant (Some text) None None.

Definition asks (calls : list ToolCall) : Message :=
  mkMessage assistant None (Some calls) None.

Definition from_user (text : string) : Message :=
  mkMessage user (Some text) None None.

End Sample.

(** ** app/page.tsx: the chat surface (src/page.tsx) *)

Module ChatSurface.

Inductive UiRole : Type := ui_user | ui_assistant.

(** A displayed message.  [content] of an assistant message is
    [data.content] of an untyped body: [None] stands for [undefined]. *)
Record ChatMessage : Type := mkChatMessage {
  role : UiRole;
  content : option string
}.

(** The three pieces of React state of [Home], lines 12-14. *)
Record Surface : Type := mkSurface {
  messages : list ChatMessage;
  input : string;
  isLoading : bool
}.

(** The call of [fetch] on lines 26-32. *)
Record FetchCall : Type := mkFetch {
  fetch_url : string;
  fetch_method : string;
  fetch_body : list ChatMessage
}.

(** How the awaited part of the [try] block ends: [fetch] rejects,
    [res.json()] rejects (or [data] has no fields to read), or a body
    arrives. *)
Inductive Reply : Type :=
| FetchRejects
| JsonRejects
| Data (data_content : option string).

Definition setMessages (f : list ChatMessage → list ChatMessage) (ui : Surface)
    : Surface :=
  mkSurface (f (messages ui)) (input ui) (isLoading ui).

Definition setInput (v : string) (ui : Surface) : Surface :=
  mkSurface (messages ui) v (isLoading ui).

Definition setIsLoading (b : bool) (ui : Surface) : Surface :=
  mkSurface (messages ui) (input ui) b.

Definition error_text : string := "❌ Error connecting to backend or MCP server.".

Section Handler.
(** [String.prototype.trim] *)
Context (trim : string → string).

(** [sendMessage], lines 17-44.  The handler reads [input], [isLoading]
    and [messages] from the render it was created in and queues updates
    of the current state [ui].  It runs up to its [await]: the result is
    the state at that point and, when a request was issued, the request
    together with the rest of the function (lines 34-43), which runs on
    the state of the moment the awaited call settles. *)
Definition sendMessage (render ui : Surface)
    : Surface * option (FetchCall * (Reply → Surface → Surface)) :=
  if bool_decide (trim (input render) = "") || isLoading render then (ui, None)
  else
    let userMsg := mkChatMessage ui_user (Some (input render)) in
    let ui := setMessages (λ prev, prev ++ [userMsg]) ui in
    let ui := setInput "" ui in
    let ui := setIsLoading true ui in
    (ui,
     Some ({| fetch_url := "/api/chat";
              fetch_method := "POST";
              fetch_body := messages render ++ [userMsg] |},
           λ reply ui,
             let ui :=
               match reply with
               | Data data_content =>
                   setMessages
                     (λ prev, prev ++ [mkChatMessage ui_assistant data_content]) ui
               | FetchRejects | JsonRejects =>
                   setMessages
                     (λ prev, prev ++ [mkChatMessage ui_assistant (Some error_text)])
                     ui
               end in
             setIsLoading false ui)).

End Handler.

(** [trim] on ASCII white space and line terminators. *)
Definition is_blank_char (c : ascii) : bool :=
  bool_decide (nat_of_ascii c ∈ [9; 10; 11; 12; 13; 32]%nat).

Fixpoint trim_start (s : string) : string :=
  match s with
  | String c r => if is_blank_char c then trim_start r else s
  | EmptyString => EmptyString
  end.

Definition ascii_trim (s : string) : string :=
  String.rev (trim_start (String.rev (trim_start s))).

End ChatSurface.

(** * Properties *)

Ltac unfold_monad :=
  unfold bind, ret, throw, pending, gets, modify, lift, await, try_catch,
    set_mcpClient, set_tools, new_Client, new_tool_array, read_tool_array,
    new_msg_array, read_msg_array, push, with_msgs in *.

Lemma with_msgs_id {W} (s : St W) : with_msgs (msg_arrays s) s = s.
Proof. by destruct s. Qed.

Lemma with_msgs_twice {W} (h h' : gmap loc (list Message)) (s : St W) :
  with_msgs h (with_msgs h' s) = with_msgs h s.
Proof. done. Qed.

(** ** The tool registry client *)

Module RegistryFacts.
Section RegistryFacts.
Context {W : Type} (env : Env W) (cfg : Config).

Local Abbreviation getMCPClient := (Registry.getMCPClient env cfg).
Local Abbreviation callMCPTool := (Registry.callMCPTool env cfg).

(** Line 8: with a client in the module variable the call returns at once
    and changes nothing. *)
Lemma getMCPClient_cached (s : St W) (c : ClientRef) :
  mcpClient s = Some c → getMCPClient s = (Ret (c, tools s), s).
Proof.
  intros H. unfold Registry.getMCPClient, bind, gets, ret. by rewrite H.
Qed.

(** The registry never looks at the message arrays. *)
Lemma getMCPClient_store (h : gmap loc (list Message)) (s : St W) :
  getMCPClient (with_msgs h s)
  = let '(r, s') := getMCPClient s in (r, with_msgs h s').
Proof.
  destruct s as [w mc t n ta ma l].
  unfold Registry.getMCPClient. unfold_monad. simpl.
  destruct mc; [done|].
  destruct (URL_new env _); simpl; [|done].
  destruct (Client_connect env _ _ _) as [w1 [[]|e1]]; simpl; [|done].
  destruct (Client_listTools env _ _) as [w2 [ts|e2]]; simpl; done.
Qed.

(** What a call leaves behind, whatever its outcome. *)
Lemma getMCPClient_effects (s : St W) r s' :
  getMCPClient s = (r, s') →
  r ≠ Pending
  ∧ msg_arrays s' = msg_arrays s
  ∧ (∃ evs, log s' = log s ++ evs ∧ filter is_chat evs = [])
  ∧ (∀ c, mcpClient s = Some c → s' = s)
  ∧ (∀ c t, r = Ret (c, t) → mcpClient s' = Some c ∧ tools s' = t).
Proof.
  destruct s as [w mc t n ta ma l].
  unfold Registry.getMCPClient. unfold_monad. simpl.
  destruct mc.
  { intros [= <- <-]. split_and!; try done.
    - exists []. by rewrite app_nil_r.
    - intros c0 t0 [= <- <-]. done. }
  destruct (URL_new env _); simpl.
  2:{ intros [= <- <-]. split_and!; try done.
      exists []. by rewrite app_nil_r. }
  destruct (Client_connect env _ _ _) as [w1 [[]|e1]]; simpl.
  2:{ intros [= <- <-]. split_and!; try done. by eexists [_]. }
  destruct (Client_listTools env _ _) as [w2 [ts|e2]]; simpl.
  2:{ intros [= <- <-]. split_and!; try done.
      exists [EvConnect n a; EvListTools n].
      by rewrite <-app_assoc. }
  intros [= <- <-]. split_and!; try done.
  - exists [EvConnect n a; EvListTools n].
    by rewrite <-app_assoc.
  - intros c t0 [= <- <-]. done.
Qed.

(** [callMCPTool] is [getMCPClient] followed by one call to the provider;
    it does not look at the message arrays either. *)
Lemma callMCPTool_store (name : string) (args : JSON)
    (h : gmap loc (list Message)) (s : St W) :
  callMCPTool name args (with_msgs h s)
  = let '(r, s') := callMCPTool name args s in (r, with_msgs h s').
Proof.
  unfold Registry.callMCPTool, bind.
  rewrite getMCPClient_store.
  destruct (getMCPClient s) as [[[c t]|e|] s1]; simpl; [|done..].
  unfold await. simpl.
  destruct (Client_callTool env _ _ _ _) as [w1 [res|e1]]; done.
Qed.

Lemma callMCPTool_effects (name : string) (args : JSON) (s : St W) r s' :
  callMCPTool name args s = (r, s') →
  r ≠ Pending
  ∧ msg_arrays s' = msg_arrays s
  ∧ (∃ evs, log s' = log s ++ evs ∧ filter is_chat evs = []).
Proof.
  unfold Registry.callMCPTool, bind.
  destruct (getMCPClient s) as [r1 s1] eqn:H1.
  apply getMCPClient_effects in H1 as (Hp & Hm & (evs & Hl & Hc) & _ & _).
  destruct r1 as [[c t]|e|]; [|intros [= <- <-]; eauto..|done].
  unfold await. destruct (Client_callTool env _ _ _ _) as [w1 [res|e1]].
  all: intros [= <- <-]; simpl; split_and!; try done.
  all: exists (evs ++ [EvCallTool c name args]).
  all: by rewrite Hl, <-app_assoc, filter_app, Hc.
Qed.

(** After a successful call the two module variables hold what the call
    returned. *)
Lemma getMCPClient_returned (s s1 : St W) (c : ClientRef) (t : loc) :
  getMCPClient s = (Ret (c, t), s1) → mcpClient s1 = Some c ∧ tools s1 = t.
Proof.
  intros H. apply getMCPClient_effects in H as (_ & _ & _ & _ & H).
  by apply H.
Qed.

(** A handshake that fails after [new URL] succeeded: the client object is
    already in the module variable (line 14 runs before line 24), so the
    next call takes the early return of line 8. *)
Lemma getMCPClient_after_failed_connect (s : St W) (url : URL) (e : JsError) w' :
  mcpClient s = None →
  URL_new env (Registry.url_argument cfg) = Value url →
  Client_connect env (clients s) url (world s) = (w', Raised e) →
  ∃ s1,
    getMCPClient s = (Throw e, s1)
    ∧ log s1 = log s ++ [EvConnect (clients s) url]
    ∧ getMCPClient s1 = (Ret (clients s, tools s), s1).
Proof.
  destruct s as [w mc t n ta ma l]. simpl. intros -> Hu Hc.
  unfold Registry.getMCPClient. unfold_monad. simpl.
  rewrite Hu. simpl. rewrite Hc. simpl. eexists. split; [done|]. done.
Qed.

(** A failure inside [new URL] happens before anything is assigned or
    sent: the state is untouched and the next call starts over. *)
Lemma getMCPClient_invalid_url (s : St W) (e : JsError) :
  mcpClient s = None →
  URL_new env (Registry.url_argument cfg) = Raised e →
  getMCPClient s = (Throw e, s).
Proof.
  intros Hc Hu. unfold Registry.getMCPClient. unfold_monad.
  rewrite Hc, Hu. done.
Qed.

End RegistryFacts.
End RegistryFacts.

(** ** The conversation loop *)

(** [append_at cur rs h]: the store [h] after pushing [rs], one by one,
    onto the array behind [cur]. *)
Definition append_at (cur : loc) (rs : list Message)
    (h : gmap loc (list Message)) : gmap loc (list Message) :=
  alter (λ xs, xs ++ rs) cur h.

Lemma append_at_nil cur (h : gmap loc (list Message)) : append_at cur [] h = h.
Proof. apply alter_id. intros x _. apply app_nil_r. Qed.

Lemma append_at_app cur rs1 rs2 (h : gmap loc (list Message)) :
  append_at cur rs2 (append_at cur rs1 h) = append_at cur (rs1 ++ rs2) h.
Proof.
  unfold append_at. apply map_eq. intros l.
  destruct (decide (cur = l)) as [<-|Hne].
  - rewrite !lookup_alter_eq. destruct (h !! cur); simpl; [|done].
    by rewrite <-app_assoc.
  - by rewrite !lookup_alter_ne.
Qed.

Lemma append_at_lookup cur rs (h : gmap loc (list Message)) xs :
  h !! cur = Some xs → append_at cur rs h !! cur = Some (xs ++ rs).
Proof. intros H. unfold append_at. by rewrite lookup_alter_eq, H. Qed.

Lemma append_at_lookup_ne cur rs (h : gmap loc (list Message)) l :
  l ≠ cur → append_at cur rs h !! l = h !! l.
Proof. intros H. unfold append_at. by rewrite lookup_alter_ne. Qed.

(** A tool-result message that answers the request [c]. *)
Definition answers (c : ToolCall) (m : Message) : Prop :=
  msg_role m = tool
  ∧ msg_tool_call_id m = Some (call_id c)
  ∧ is_Some (msg_content m)
  ∧ msg_tool_calls m = None.

(** The events of a stretch of the log in which the model is not invoked. *)
Definition no_model_call (evs : list Event) : Prop := filter is_chat evs = [].

Lemma no_model_call_app evs1 evs2 :
  no_model_call evs1 → no_model_call evs2 → no_model_call (evs1 ++ evs2).
Proof. unfold no_model_call. intros H1 H2. by rewrite filter_app, H1, H2. Qed.

Lemma model_calls_app l1 l2 : model_calls (l1 ++ l2) = model_calls l1 + model_calls l2.
Proof. unfold model_calls. by rewrite filter_app, length_app. Qed.

Lemma no_model_call_count evs : no_model_call evs → model_calls evs = 0.
Proof. unfold no_model_call, model_calls. by intros ->. Qed.

Module LoopFacts.
Section LoopFacts.
Context {W : Type} (env : Env W) (cfg : Config).

Local Abbreviation callMCPTool := (Registry.callMCPTool env cfg).
Local Abbreviation run_tool_call := (ChatRoute.run_tool_call env cfg).
Local Abbreviation for_tool_calls := (ChatRoute.for_tool_calls env cfg).
Local Abbreviation iteration := (ChatRoute.iteration env cfg).
Local Abbreviation tool_loop := (ChatRoute.tool_loop env cfg).
Local Abbreviation POST := (ChatRoute.POST env cfg).
Local Abbreviation tool_message := ChatRoute.tool_message.
Local Abbreviation parse_args :=
  (λ c : ToolCall, JSON_parse env (call_function_arguments c)).

(** The arguments string of a request is JSON text. *)
Definition well_formed (c : ToolCall) : Prop := ∃ a, parse_args c = Value a.

Lemma push_store cur (m : Message) (s : St W) :
  push cur m s = (Ret tt, with_msgs (append_at cur [m] (msg_arrays s)) s).
Proof. done. Qed.

(** *** One tool call *)

(** Line 48 is not inside the [try]: what [JSON.parse] throws leaves the
    loop body, before anything is invoked or appended. *)
Lemma run_tool_call_parse_error cur (c : ToolCall) (e : JsError) (s : St W) :
  parse_args c = Raised e → run_tool_call cur c s = (Throw e, s).
Proof.
  intros H. unfold ChatRoute.run_tool_call, bind, lift. by rewrite H.
Qed.

(** Lines 51-57: the invocation returned. *)
Lemma run_tool_call_returned cur (c : ToolCall) (a : JSON) (res : ToolResult)
    (s s1 : St W) :
  parse_args c = Value a →
  callMCPTool (call_function_name c) a s = (Ret res, s1) →
  run_tool_call cur c s
  = push cur (tool_message (call_id c) (JSON_stringify env (result_content res))) s1.
Proof.
  intros Hp Hc. unfold ChatRoute.run_tool_call, bind, lift, try_catch.
  rewrite Hp. simpl. unfold bind. by rewrite Hc.
Qed.

(** Lines 58-64: the invocation threw, the [catch] turns the error into
    the content of the tool result. *)
Lemma run_tool_call_raised cur (c : ToolCall) (a : JSON) (e : JsError)
    (s s1 : St W) :
  parse_args c = Value a →
  callMCPTool (call_function_name c) a s = (Throw e, s1) →
  run_tool_call cur c s
  = push cur (tool_message (call_id c) ("Error: " +:+ err_message e)) s1.
Proof.
  intros Hp Hc. unfold ChatRoute.run_tool_call, bind, lift, try_catch.
  rewrite Hp. simpl. unfold bind. by rewrite Hc.
Qed.

(** A failing invocation is reported and the [for] loop goes on with the
    next request: the content of the result starts with ["Error:"]. *)
Lemma failed_invocation_is_reported cur (c : ToolCall) (rest : list ToolCall)
    (a : JSON) (e : JsError) (s s1 : St W) :
  parse_args c = Value a →
  callMCPTool (call_function_name c) a s = (Throw e, s1) →
  ∃ text,
    for_tool_calls cur (c :: rest) s
    = for_tool_calls cur rest
        (with_msgs (append_at cur [tool_message (call_id c) text] (msg_arrays s1)) s1)
    ∧ String.prefix "Error:" text = true.
Proof.
  intros Hp Hc. exists ("Error: " +:+ err_message e). split; [|done].
  cbn [ChatRoute.for_tool_calls]. unfold bind at 1.
  by rewrite (run_tool_call_raised cur c a e s s1 Hp Hc), push_store.
Qed.

(** The body of the loop in any store: its completion [r], the messages
    [rs] it pushes and the rest of the state [s'] do not depend on the
    store or on the array it pushes to. *)
Lemma run_tool_call_spec (c : ToolCall) (s : St W) :
  ∃ r rs s',
    (∀ h cur, run_tool_call cur c (with_msgs h s)
              = (r, with_msgs (append_at cur rs h) s'))
    ∧ ((r = Ret tt ∧ well_formed c ∧ ∃ m, rs = [m] ∧ answers c m)
       ∨ (∃ e, r = Throw e ∧ rs = [] ∧ parse_args c = Raised e))
    ∧ (∃ evs, log s' = log s ++ evs ∧ no_model_call evs).
Proof.
  destruct (parse_args c) as [a|e] eqn:Hp.
  2:{ exists (Throw e), [], s. split_and!.
      - intros h cur. rewrite append_at_nil.
        by apply run_tool_call_parse_error.
      - right. eauto.
      - exists []. by rewrite app_nil_r. }
  destruct (callMCPTool (call_function_name c) a s) as [r1 s1] eqn:Hc.
  pose proof (callMCPTool_store := RegistryFacts.callMCPTool_store env cfg).
  destruct (RegistryFacts.callMCPTool_effects env cfg _ _ _ _ _ Hc)
    as (Hpend & _ & Hlog).
  destruct r1 as [res|e|]; [| |done].
  - eexists (Ret tt), [_], s1.
    split_and!; [|left; split_and!; [done|by exists a|]|done].
    + intros h cur.
      erewrite run_tool_call_returned; [|done|].
      2:{ rewrite callMCPTool_store, Hc. done. }
      done.
    + eexists. split; [done|]. by repeat split; eauto.
  - eexists (Ret tt), [_], s1.
    split_and!; [|left; split_and!; [done|by exists a|]|done].
    + intros h cur.
      erewrite run_tool_call_raised; [|done|].
      2:{ rewrite callMCPTool_store, Hc. done. }
      done.
    + eexists. split; [done|]. by repeat split; eauto.
Qed.

(** *** The [for] loop over the requests of one response *)

Lemma for_tool_calls_spec (calls : list ToolCall) (s : St W) :
  ∃ r rs s',
    (∀ h cur, for_tool_calls cur calls (with_msgs h s)
              = (r, with_msgs (append_at cur rs h) s'))
    ∧ Forall2 answers (take (length rs) calls) rs
    ∧ Forall well_formed (take (length rs) calls)
    ∧ ((r = Ret tt ∧ length rs = length calls)
       ∨ (∃ e c, r = Throw e ∧ calls !! length rs = Some c
                 ∧ parse_args c = Raised e))
    ∧ (∃ evs, log s' = log s ++ evs ∧ no_model_call evs).
Proof.
  revert s. induction calls as [|c rest IH]; intros s.
  { exists (Ret tt), [], s. split_and!.
    - intros h cur. by rewrite append_at_nil.
    - constructor.
    - constructor.
    - by left.
    - exists []. by rewrite app_nil_r. }
  destruct (run_tool_call_spec c s) as (r1 & rs1 & s1 & Hrun & Hcase & evs1 & Hl1 & Hn1).
  destruct Hcase as [(-> & Hwf & m & -> & Hm)|(e & -> & -> & Hp)].
  - destruct (IH s1)
      as (r2 & rs2 & s2 & Hfor & Hans & Hwfs & Hcase2 & evs2 & Hl2 & Hn2).
    exists r2, (m :: rs2), s2. split_and!.
    + intros h cur. simpl. unfold bind. rewrite Hrun, Hfor.
      rewrite append_at_app. simpl. by destruct r2.
    + simpl. by constructor.
    + simpl. by constructor.
    + destruct Hcase2 as [[-> Hlen]|(e & c' & -> & Hlk & Hp)].
      * left. simpl. by rewrite Hlen.
      * right. exists e, c'. by simpl.
    + exists (evs1 ++ evs2). rewrite Hl2, Hl1, <-app_assoc. split; [done|].
      by apply no_model_call_app.
  - exists (Throw e), [], s1. split_and!.
    + intros h cur. simpl. unfold bind. by rewrite Hrun.
    + constructor.
    + constructor.
    + right. exists e, c. by simpl.
    + eauto.
Qed.

(** *** One pass through the body of [while (true)] *)

(** What the model backend does when it is invoked with the history
    [hist] in state [s]. *)
Definition model_answer (schemas : list ToolSchema) (hist : list Message)
    (s : St W) : W * Outcome ChatResponse :=
  chat_completions_create env (openai cfg) (ChatRoute.chat_request cfg schemas hist)
                          (world s).

(** The state right after that invocation. *)
Definition invoked (schemas : list ToolSchema) (hist : list Message)
    (s : St W) : St W :=
  mkSt (model_answer schemas hist s).1 (mcpClient s) (tools s) (clients s)
       (tool_arrays s) (msg_arrays s)
       (log s ++ [EvChat (openai cfg) (ChatRoute.chat_request cfg schemas hist)]).

Definition no_choice : JsError :=
  mkError "TypeError" "Cannot read properties of undefined (reading 'message')".

(** The five ways a pass can go, by what the model answered: its
    completion and the messages it pushes onto [currentMessages]. *)
Inductive pass (answer : Outcome ChatResponse)
    : Res (option string) → list Message → Prop :=
| pass_backend_error e :
    answer = Raised e →
    pass answer (Throw e) []
| pass_no_choice :
    answer = Value (mkChatResponse []) →
    pass answer (Throw no_choice) []
| pass_final message others :
    answer = Value (mkChatResponse (message :: others)) →
    ChatRoute.no_tool_calls message = true →
    pass answer (Ret (Some (ChatRoute.content_or_sentinel message))) [message]
| pass_tools message others calls results :
    answer = Value (mkChatResponse (message :: others)) →
    msg_tool_calls message = Some calls → calls ≠ [] →
    Forall2 answers calls results →
    Forall well_formed calls →
    pass answer (Ret None) (message :: results)
| pass_abort message others calls results e c :
    answer = Value (mkChatResponse (message :: others)) →
    msg_tool_calls message = Some calls →
    Forall2 answers (take (length results) calls) results →
    Forall well_formed (take (length results) calls) →
    calls !! length results = Some c →
    parse_args c = Raised e →
    pass answer (Throw e) (message :: results).

Lemma no_tool_calls_false (m : Message) :
  ChatRoute.no_tool_calls m = false ↔
  ∃ calls, msg_tool_calls m = Some calls ∧ calls ≠ [].
Proof.
  unfold ChatRoute.no_tool_calls. destruct (msg_tool_calls m) as [calls|].
  - rewrite bool_decide_eq_false. split.
    + intros H. exists calls. split; [done|]. by intros ->.
    + intros (? & [= <-] & H). by destruct calls.
  - split; [done|]. by intros (? & ? & _).
Qed.

Lemma iteration_spec (schemas : list ToolSchema) (hist : list Message) (s : St W) :
  ∃ r appended s' evs,
    (∀ h cur, default [] (h !! cur) = hist →
       iteration schemas cur (with_msgs h s)
       = (r, with_msgs (append_at cur appended h) s'))
    ∧ pass (model_answer schemas hist s).2 r appended
    ∧ log s' = log (invoked schemas hist s) ++ evs
    ∧ no_model_call evs.
Proof.
  destruct (model_answer schemas hist s) as [w' answer] eqn:Ha.
  assert (Hstart : ∀ h cur, default [] (h !! cur) = hist →
            iteration schemas cur (with_msgs h s)
            = bind (lift answer)
                (λ response,
                  message ← ChatRoute.first_choice response;
                  push cur message;;
                  if ChatRoute.no_tool_calls message
                  then ret (Some (ChatRoute.content_or_sentinel message))
                  else for_tool_calls cur (default [] (msg_tool_calls message));;
                       ret None)
                (with_msgs h (invoked schemas hist s))).
  { intros h cur Hh. unfold ChatRoute.iteration, bind at 1, read_msg_array, gets.
    unfold with_msgs at 1. simpl. rewrite Hh.
    unfold bind at 1, await. simpl. unfold model_answer in Ha. rewrite Ha.
    unfold invoked, model_answer. rewrite Ha. simpl.
    unfold bind at 2, lift. by destruct answer. }
  destruct answer as [[[|message others]]|e].
  - exists (Throw no_choice), [], (invoked schemas hist s), []. split_and!.
    + intros h cur Hh. rewrite Hstart by done. by rewrite append_at_nil.
    + by constructor.
    + by rewrite app_nil_r.
    + done.
  - destruct (ChatRoute.no_tool_calls message) eqn:Hn.
    + exists (Ret (Some (ChatRoute.content_or_sentinel message))), [message],
        (invoked schemas hist s), []. split_and!.
      * intros h cur Hh. rewrite Hstart by done.
        unfold bind, lift, ret, ChatRoute.first_choice. simpl. by rewrite Hn.
      * by econstructor.
      * by rewrite app_nil_r.
      * done.
    + apply no_tool_calls_false in Hn as Hcalls.
      destruct Hcalls as (calls & Hcalls & Hne).
      destruct (for_tool_calls_spec calls (invoked schemas hist s))
        as (r & rs & s' & Hfor & Hans & Hwf & Hcase & evs & Hl & Hno).
      exists (match r with Ret _ => Ret None | Throw e => Throw e
                         | Pending => Pending end), (message :: rs), s', evs.
      split_and!; [| |done..].
      * intros h cur Hh. rewrite Hstart by done.
        unfold bind, lift, ret, ChatRoute.first_choice. simpl.
        rewrite Hn, Hcalls. simpl.
        match goal with
        | |- context [for_tool_calls cur calls ?st] =>
            change st with (with_msgs (append_at cur [message] h)
                                      (invoked schemas hist s))
        end.
        rewrite Hfor. rewrite append_at_app. by destruct r.
      * destruct Hcase as [[-> Hlen]|(e & c & -> & Hlk & Hp)].
        -- rewrite Hlen, firstn_all in Hans, Hwf. by eapply pass_tools.
        -- by eapply pass_abort.
  - exists (Throw e), [], (invoked schemas hist s), []. split_and!.
    + intros h cur Hh. rewrite Hstart by done. by rewrite append_at_nil.
    + by constructor.
    + by rewrite app_nil_r.
    + done.
Qed.

(** The history a pass starts from. *)
Definition history (cur : loc) (s : St W) : list Message :=
  default [] (msg_arrays s !! cur).

(** The same statement for a pass run in a given state. *)
Lemma iteration_run (schemas : list ToolSchema) (cur : loc) (s : St W) r s' :
  iteration schemas cur s = (r, s') →
  ∃ appended evs,
    pass (model_answer schemas (history cur s) s).2 r appended
    ∧ msg_arrays s' = append_at cur appended (msg_arrays s)
    ∧ log s' = log s ++ EvChat (openai cfg)
                          (ChatRoute.chat_request cfg schemas (history cur s))
                   :: evs
    ∧ no_model_call evs.
Proof.
  intros Hrun.
  destruct (iteration_spec schemas (history cur s) s)
    as (r0 & appended & s0 & evs & Hspec & Hpass & Hlog & Hno).
  specialize (Hspec (msg_arrays s) cur eq_refl).
  rewrite with_msgs_id, Hrun in Hspec. injection Hspec as -> ->.
  exists appended, evs. split_and!; try done.
  simpl. rewrite Hlog. simpl. by rewrite <-app_assoc.
Qed.

Lemma iteration_not_pending (schemas : list ToolSchema) (cur : loc) (s : St W) s' :
  iteration schemas cur s ≠ (Pending, s').
Proof.
  intros H. apply iteration_run in H as (? & ? & H & _). inversion H.
Qed.

Lemma iteration_model_calls (schemas : list ToolSchema) (cur : loc) (s : St W) r s' :
  iteration schemas cur s = (r, s') →
  model_calls (log s') = model_calls (log s) + 1.
Proof.
  intros H. apply iteration_run in H as (? & evs & _ & _ & -> & Hno).
  rewrite model_calls_app. f_equal.
  change (EvChat ?a ?b :: evs) with ([EvChat a b] ++ evs).
  rewrite model_calls_app, (no_model_call_count evs) by done. done.
Qed.

(** *** The loop *)

(** [rounds n s s']: starting in [s], the loop makes [n] passes that each
    reach the end of the body (the model asked for tools and every request
    was handled), and is then in [s']. *)
Inductive rounds (schemas : list ToolSchema) (cur : loc)
    : nat → St W → St W → Prop :=
| rounds_O s : rounds schemas cur 0 s s
| rounds_S n s s1 s2 :
    iteration schemas cur s = (Ret None, s1) →
    rounds schemas cur n s1 s2 →
    rounds schemas cur (S n) s s2.

Lemma tool_loop_S (n : nat) (schemas : list ToolSchema) (cur : loc) (s : St W) :
  tool_loop (S n) schemas cur s
  = match iteration schemas cur s with
    | (Ret (Some finalResponse), s1) => (Ret finalResponse, s1)
    | (Ret None, s1) => tool_loop n schemas cur s1
    | (Throw e, s1) => (Throw e, s1)
    | (Pending, s1) => (Pending, s1)
    end.
Proof.
  simpl. unfold bind. by destruct (iteration schemas cur s) as [[[?|]| |] ?].
Qed.

Lemma tool_loop_rounds (schemas : list ToolSchema) (cur : loc) n k (s s' : St W) :
  rounds schemas cur n s s' →
  tool_loop (n + k) schemas cur s = tool_loop k schemas cur s'.
Proof.
  induction 1 as [|n s s1 s2 Hit _ IH]; [done|].
  change (S n + k) with (S (n + k)). by rewrite tool_loop_S, Hit.
Qed.

Lemma rounds_model_calls (schemas : list ToolSchema) (cur : loc) n (s s' : St W) :
  rounds schemas cur n s s' →
  model_calls (log s') = model_calls (log s) + n.
Proof.
  induction 1 as [|n s s1 s2 Hit _ IH]; [lia|].
  apply iteration_model_calls in Hit. lia.
Qed.

(** The loop is cut off by the fuel only, after that many full passes. *)
Lemma tool_loop_pending (schemas : list ToolSchema) (cur : loc) n (s s' : St W) :
  tool_loop n schemas cur s = (Pending, s') ↔ rounds schemas cur n s s'.
Proof.
  split.
  - revert s. induction n as [|n IH]; intros s.
    + intros [= <-]. constructor.
    + rewrite tool_loop_S.
      destruct (iteration schemas cur s) as [[[c|]|e|] s1] eqn:Hit; try done.
      * intros H. econstructor; eauto.
      * by apply iteration_not_pending in Hit.
  - intros H. rewrite <-(Nat.add_0_r n). by rewrite (tool_loop_rounds _ _ _ _ _ _ H).
Qed.

(** Any other completion comes from the pass that follows some number of
    full passes. *)
Lemma tool_loop_stops (schemas : list ToolSchema) (cur : loc) n (s s' : St W)
    (r : Res string) :
  r ≠ Pending →
  tool_loop n schemas cur s = (r, s') ↔
  ∃ k sk, k < n ∧ rounds schemas cur k s sk
          ∧ match r with
            | Ret c => iteration schemas cur sk = (Ret (Some c), s')
            | Throw e => iteration schemas cur sk = (Throw e, s')
            | Pending => False
            end.
Proof.
  intros Hr. split.
  - revert s. induction n as [|n IH]; intros s.
    + intros [= <- _]. done.
    + rewrite tool_loop_S.
      destruct (iteration schemas cur s) as [[[c|]|e|] s1] eqn:Hit.
      * intros [= <- <-]. exists 0, s. split_and!; [lia|constructor|done].
      * intros H. apply IH in H as (k & sk & Hk & Hrounds & Hlast).
        exists (S k), sk. split_and!; [lia| |done]. econstructor; eauto.
      * intros [= <- <-]. exists 0, s. split_and!; [lia|constructor|done].
      * by apply iteration_not_pending in Hit.
  - intros (k & sk & Hk & Hrounds & Hlast).
    replace n with (k + S (n - S k)) by lia.
    rewrite (tool_loop_rounds _ _ _ _ _ _ Hrounds), tool_loop_S.
    destruct r; [by rewrite Hlast..|done].
Qed.

(** The loop in any store: completion, pushed messages and the rest of
    the state are the same whatever else the store holds. *)
Lemma tool_loop_spec (schemas : list ToolSchema) (fuel : nat) :
  ∀ (hist : list Message) (s : St W),
  ∃ r appended s',
    ∀ h cur, h !! cur = Some hist →
      tool_loop fuel schemas cur (with_msgs h s)
      = (r, with_msgs (append_at cur appended h) s').
Proof.
  induction fuel as [|fuel IH]; intros hist s.
  { exists Pending, [], s. intros h cur _. by rewrite append_at_nil. }
  destruct (iteration_spec schemas hist s) as (r1 & app1 & s1 & evs & Hit & _).
  destruct r1 as [[c|]|e|].
  - exists (Ret c), app1, s1. intros h cur Hh.
    rewrite tool_loop_S, Hit; [done|by rewrite Hh].
  - destruct (IH (hist ++ app1) s1) as (r2 & app2 & s2 & Hloop).
    exists r2, (app1 ++ app2), s2. intros h cur Hh.
    rewrite tool_loop_S, Hit by (by rewrite Hh).
    rewrite Hloop by (by apply append_at_lookup).
    by rewrite append_at_app.
  - exists (Throw e), app1, s1. intros h cur Hh.
    rewrite tool_loop_S, Hit; [done|by rewrite Hh].
  - exists Pending, app1, s1. intros h cur Hh.
    rewrite tool_loop_S, Hit; [done|by rewrite Hh].
Qed.

(** *** The handler *)

(** Where [req.json()] puts the array of the body, and where the copy
    [[...messages]] goes, in a process whose store is [h]. *)
Definition messages_loc (h : gmap loc (list Message)) : loc :=
  fresh (dom h : gset loc).

Definition current_loc (req : NextRequest) (h : gmap loc (list Message)) : loc :=
  fresh (dom (<[messages_loc h := body_messages req]> h) : gset loc).

(** The store when the loop is entered. *)
Definition loop_store (req : NextRequest) (h : gmap loc (list Message))
    : gmap loc (list Message) :=
  <[current_loc req h := body_messages req]>
    (<[messages_loc h := body_messages req]> h).

Definition schemas_of (t : loc) (s : St W) : list ToolSchema :=
  map ChatRoute.toolSchema (default [] (tool_arrays s !! t)).

Lemma messages_loc_fresh (h : gmap loc (list Message)) : h !! messages_loc h = None.
Proof. unfold messages_loc. apply not_elem_of_dom. apply is_fresh. Qed.

Lemma current_loc_fresh (req : NextRequest) (h : gmap loc (list Message)) :
  current_loc req h ≠ messages_loc h ∧ h !! current_loc req h = None.
Proof.
  pose proof (is_fresh (dom (<[messages_loc h := body_messages req]> h))) as H.
  fold (current_loc req h) in H. rewrite dom_insert_L in H.
  split.
  - intros Heq. apply H. rewrite Heq. set_solver.
  - apply not_elem_of_dom. set_solver.
Qed.

Lemma loop_store_current (req : NextRequest) (h : gmap loc (list Message)) :
  loop_store req h !! current_loc req h = Some (body_messages req).
Proof. unfold loop_store. by rewrite lookup_insert_eq. Qed.

(** [POST] is the registry lookup followed by the loop on a fresh copy of
    the submitted history. *)
Lemma POST_run (fuel : nat) (req : NextRequest) (s : St W) :
  POST fuel req s
  = match Registry.getMCPClient env cfg s with
    | (Ret (_, t), s1) =>
        match tool_loop fuel (schemas_of t s1) (current_loc req (msg_arrays s))
                (with_msgs (loop_store req (msg_arrays s)) s1) with
        | (Ret finalResponse, s2) => (Ret {| content := finalResponse |}, s2)
        | (Throw e, s2) => (Throw e, s2)
        | (Pending, s2) => (Pending, s2)
        end
    | (Throw e, s1) =>
        (Throw e, with_msgs (<[messages_loc (msg_arrays s) := body_messages req]>
                               (msg_arrays s)) s1)
    | (Pending, s1) =>
        (Pending, with_msgs (<[messages_loc (msg_arrays s) := body_messages req]>
                               (msg_arrays s)) s1)
    end.
Proof.
  unfold ChatRoute.POST, ChatRoute.req_json, bind at 1, new_msg_array.
  cbn [msg_arrays world mcpClient tools clients tool_arrays log].
  change (mkSt (world s) (mcpClient s) (tools s) (clients s) (tool_arrays s)
               ?h (log s)) with (with_msgs h s).
  unfold bind at 1. rewrite RegistryFacts.getMCPClient_store.
  destruct (Registry.getMCPClient env cfg s) as [[[c t]|e|] s1]; [|done..].
  unfold bind at 1, read_tool_array, gets. cbn [tool_arrays with_msgs].
  unfold bind at 1, ChatRoute.spread, bind at 1, read_msg_array, gets,
    new_msg_array.
  cbn [msg_arrays world mcpClient tools clients tool_arrays log with_msgs].
  rewrite lookup_insert_eq. cbn [default].
  unfold bind, ret.
  change (mkSt (world s1) (mcpClient s1) (tools s1) (clients s1) (tool_arrays s1)
               ?h (log s1)) with (with_msgs h s1).
  fold (messages_loc (msg_arrays s)).
  fold (current_loc req (msg_arrays s)).
  fold (loop_store req (msg_arrays s)).
  fold (schemas_of t s1).
  by destruct (tool_loop _ _ _ _) as [[]].
Qed.

(** *** Reading a pass off the model's answer *)

Lemma pass_of_tool_response (answer : Outcome ChatResponse)
    (message : Message) (others : list Message) (calls : list ToolCall)
    (r : Res (option string)) (appended : list Message) :
  answer = Value (mkChatResponse (message :: others)) →
  msg_tool_calls message = Some calls →
  calls ≠ [] →
  pass answer r appended →
  ∃ results,
    appended = message :: results
    ∧ Forall2 answers (take (length results) calls) results
    ∧ Forall well_formed (take (length results) calls)
    ∧ ((r = Ret None ∧ length results = length calls)
       ∨ (∃ e c, r = Throw e ∧ calls !! length results = Some c
                 ∧ parse_args c = Raised e)).
Proof.
  intros -> Hcalls Hne Hpass.
  inversion Hpass as [e He| He | m o He Hno | m o cs rs He Hcs Hn Hans Hwf
                     | m o cs rs e c He Hcs Hans Hwf Hlk Hp]; subst;
    try discriminate; injection He as <- <-.
  - unfold ChatRoute.no_tool_calls in Hno. rewrite Hcalls in Hno.
    apply bool_decide_eq_true in Hno. by destruct calls.
  - rewrite Hcalls in Hcs. injection Hcs as <-.
    exists rs. apply Forall2_length in Hans as Hlen.
    rewrite <-Hlen, firstn_all. split_and!; try done. left. done.
  - rewrite Hcalls in Hcs. injection Hcs as <-.
    exists rs. split_and!; try done. right. eauto.
Qed.

Lemma pass_of_final_response (answer : Outcome ChatResponse)
    (message : Message) (others : list Message)
    (r : Res (option string)) (appended : list Message) :
  answer = Value (mkChatResponse (message :: others)) →
  ChatRoute.no_tool_calls message = true →
  pass answer r appended →
  r = Ret (Some (ChatRoute.content_or_sentinel message)) ∧ appended = [message].
Proof.
  intros -> Hno Hpass.
  assert (Hnot : ∀ cs, msg_tool_calls message = Some cs → cs = []).
  { intros cs Hcs. unfold ChatRoute.no_tool_calls in Hno. rewrite Hcs in Hno.
    apply bool_decide_eq_true in Hno. by destruct cs. }
  inversion Hpass as [e He| He | m o He _ | m o cs rs He Hcs Hn Hans Hwf
                     | m o cs rs e c He Hcs Hans Hwf Hlk Hp]; subst;
    try discriminate; injection He as <- <-.
  - done.
  - by apply Hnot in Hcs.
  - apply Hnot in Hcs as ->. done.
Qed.

Lemma answers_ids (calls : list ToolCall) (results : list Message) :
  Forall2 answers calls results →
  msg_tool_call_id <$> results = (λ c, Some (call_id c)) <$> calls
  ∧ Forall (λ m, msg_role m = tool) results.
Proof.
  induction 1 as [|c m calls results (Hrole & Hid & _) _ [IH1 IH2]]; [done|].
  split; [by rewrite !fmap_cons, Hid, IH1|by constructor].
Qed.

Lemma history_lookup (cur : loc) (s : St W) (hist : list Message) :
  msg_arrays s !! cur = Some hist → history cur s = hist.
Proof. unfold history. by intros ->. Qed.

(** Requests are answered before the model is asked again.  Take a
    pass of the loop in which the model's response [message] carries
    [N >= 1] tool-call requests [calls].  Whatever the outcome of the
    pass, the working history is then the old history, followed by
    [message] as the model sent it, followed by tool-result messages for
    the requests handled so far, in the order of the requests and each
    with the [tool_call_id] of its request; the model was invoked once,
    for this response, and not again.  The pass either reaches the end of
    the body or throws.  When it reaches the end, which is the only way
    the loop comes to its next model invocation, there are exactly [N]
    results, one per request, and that next invocation is sent exactly
    this history.  It reaches the end whenever the arguments strings are
    JSON text. *)
Theorem tool_results_follow_requests
    (schemas : list ToolSchema) (cur : loc) (s : St W) (hist : list Message)
    (w' : W) (message : Message) (others : list Message)
    (calls : list ToolCall) (r : Res (option string)) (s' : St W) :
  msg_arrays s !! cur = Some hist →
  model_answer schemas hist s = (w', Value (mkChatResponse (message :: others))) →
  msg_tool_calls message = Some calls →
  calls ≠ [] →
  iteration schemas cur s = (r, s') →
  ∃ results,
    msg_arrays s' !! cur = Some (hist ++ message :: results)
    ∧ Forall2 answers (take (length results) calls) results
    ∧ model_calls (log s') = model_calls (log s) + 1
    ∧ (r = Ret None ∨ ∃ e, r = Throw e)
    ∧ (r = Ret None →
         length results = length calls
         ∧ msg_tool_call_id <$> results = (λ c, Some (call_id c)) <$> calls
         ∧ Forall (λ m, msg_role m = tool) results
         ∧ (∀ n, tool_loop (S n) schemas cur s = tool_loop n schemas cur s')
         ∧ (∀ r2 s2, iteration schemas cur s' = (r2, s2) →
              ∃ evs, log s2
                     = log s' ++ EvChat (openai cfg)
                                   (ChatRoute.chat_request cfg schemas
                                      (hist ++ message :: results)) :: evs))
    ∧ (Forall well_formed calls → r = Ret None).
Proof.
  intros Hcur Hanswer Hcalls Hne Hrun.
  pose proof (iteration_model_calls _ _ _ _ _ Hrun) as Hcount.
  pose proof Hrun as Hrun'.
  apply iteration_run in Hrun' as (appended & evs & Hpass & Hstore & Hlog & Hno).
  rewrite (history_lookup _ _ _ Hcur), Hanswer in Hpass. simpl in Hpass.
  destruct (pass_of_tool_response _ _ _ _ _ _ eq_refl Hcalls Hne Hpass)
    as (results & -> & Hans & Hwf & Hcase).
  assert (Hcur' : msg_arrays s' !! cur = Some (hist ++ message :: results)).
  { rewrite Hstore. by apply append_at_lookup. }
  exists results. split_and!; try done.
  - destruct Hcase as [[-> _]|(e & _ & -> & _)]; eauto.
  - intros ->. destruct Hcase as [[_ Hlen]|(e & _ & [=] & _)].
    rewrite Hlen, firstn_all in Hans.
    destruct (answers_ids _ _ Hans) as [Hids Hroles].
    split_and!; try done.
    + intros n. by rewrite tool_loop_S, Hrun.
    + intros r2 s2 Hnext.
      apply iteration_run in Hnext as (_ & evs2 & _ & _ & Hlog2 & _).
      rewrite (history_lookup _ _ _ Hcur') in Hlog2. eauto.
  - intros Hall. destruct Hcase as [[-> _]|(e & c & -> & Hlk & Hp)]; [done|].
    apply list_elem_of_lookup_2 in Hlk.
    rewrite Forall_forall in Hall. destruct (Hall c Hlk) as [a Ha]. congruence.
Qed.

(** A full pass is one in which the model asked for at least one tool. *)
Lemma full_pass_asks_for_tools (schemas : list ToolSchema) (cur : loc) (s s1 : St W) :
  iteration schemas cur s = (Ret None, s1) →
  ∃ w' message others calls,
    model_answer schemas (history cur s) s
    = (w', Value (mkChatResponse (message :: others)))
    ∧ msg_tool_calls message = Some calls ∧ calls ≠ []
    ∧ Forall well_formed calls.
Proof.
  intros Hrun. apply iteration_run in Hrun as (appended & evs & Hpass & _).
  destruct (model_answer schemas (history cur s) s) as [w' answer]. simpl in Hpass.
  inversion Hpass; subst. by exists w', message, others, calls.
Qed.

(** Such a response, with arguments that are JSON text, always gives a
    full pass: no outcome of the tool invocations can prevent it. *)
Lemma tool_response_gives_full_pass (schemas : list ToolSchema) (cur : loc)
    (s : St W) w' message others calls :
  model_answer schemas (history cur s) s
  = (w', Value (mkChatResponse (message :: others))) →
  msg_tool_calls message = Some calls → calls ≠ [] →
  Forall well_formed calls →
  ∃ s1, iteration schemas cur s = (Ret None, s1).
Proof.
  intros Hanswer Hcalls Hne Hall.
  destruct (iteration schemas cur s) as [r s1] eqn:Hrun. exists s1.
  apply iteration_run in Hrun as (appended & evs & Hpass & _).
  rewrite Hanswer in Hpass. simpl in Hpass.
  destruct (pass_of_tool_response _ _ _ _ _ _ eq_refl Hcalls Hne Hpass)
    as (results & _ & _ & _ & [[-> _]|(e & c & -> & Hlk & Hp)]); [done|].
  apply list_elem_of_lookup_2 in Hlk.
  rewrite Forall_forall in Hall. destruct (Hall c Hlk) as [a Ha]. congruence.
Qed.

(** No bound on the number of rounds.  For the loop started in any
    state: (1) it returns, within [n] passes, exactly when after some
    number [k < n] of full passes the model's response has no tool-call
    request, and it returns the content of that response; (2) every full
    pass answers a response that has at least one tool-call request;
    (3) after [n] full passes, for any [n], the loop has not finished, it
    has invoked the model [n] times, and it goes through the body once
    more, invoking the model again; (4) when the loop is found unfinished
    after [n] passes, all [n] were full passes: nothing but the passes
    themselves limits their number. *)
Theorem loop_has_no_round_bound (schemas : list ToolSchema) (cur : loc) (s : St W) :
  (∀ n c,
     (∃ s', tool_loop n schemas cur s = (Ret c, s')) ↔
     (∃ k sk w' message others,
        k < n ∧ rounds schemas cur k s sk
        ∧ model_answer schemas (history cur sk) sk
          = (w', Value (mkChatResponse (message :: others)))
        ∧ ChatRoute.no_tool_calls message = true
        ∧ c = ChatRoute.content_or_sentinel message))
  ∧ (∀ s0 s1, iteration schemas cur s0 = (Ret None, s1) →
       ∃ w' message others calls,
         model_answer schemas (history cur s0) s0
         = (w', Value (mkChatResponse (message :: others)))
         ∧ msg_tool_calls message = Some calls ∧ (1 ≤ length calls)%nat)
  ∧ (∀ n sn, rounds schemas cur n s sn →
       tool_loop n schemas cur s = (Pending, sn)
       ∧ model_calls (log sn) = model_calls (log s) + n
       ∧ ∃ r s', iteration schemas cur sn = (r, s')
                 ∧ model_calls (log s') = model_calls (log s) + S n
                 ∧ tool_loop (S n) schemas cur s
                   = (match r with
                      | Ret (Some c) => Ret c
                      | Ret None => Pending
                      | Throw e => Throw e
                      | Pending => Pending
                      end, s'))
  ∧ (∀ n s', tool_loop n schemas cur s = (Pending, s') →
       rounds schemas cur n s s').
Proof.
  split_and!.
  - intros n c. split.
    + intros [s' H]. apply tool_loop_stops in H as (k & sk & Hk & Hr & Hit); [|done].
      pose proof Hit as Hit'.
      apply iteration_run in Hit' as (appended & evs & Hpass & _).
      destruct (model_answer schemas (history cur sk) sk) as [w' answer] eqn:Ha.
      simpl in Hpass. inversion Hpass; subst.
      exists k, sk, w', message, others. by split_and!.
    + intros (k & sk & w' & message & others & Hk & Hr & Ha & Hno & ->).
      destruct (iteration schemas cur sk) as [r s'] eqn:Hit. exists s'.
      apply (tool_loop_stops _ _ _ _ _ (Ret _)); [done|].
      exists k, sk. split_and!; try done.
      pose proof Hit as Hit'.
      apply iteration_run in Hit' as (appended & evs & Hpass & _).
      rewrite Ha in Hpass. simpl in Hpass.
      by destruct (pass_of_final_response _ _ _ _ _ eq_refl Hno Hpass) as [-> _].
  - intros s0 s1 H.
    apply full_pass_asks_for_tools in H as (w' & m & o & calls & Ha & Hc & Hne & _).
    exists w', m, o, calls. split_and!; try done.
    destruct calls; [done|simpl; lia].
  - intros n sn Hr. split_and!.
    + by apply tool_loop_pending.
    + by apply (rounds_model_calls schemas cur).
    + destruct (iteration schemas cur sn) as [r s'] eqn:Hit. exists r, s'.
      split_and!; [done| |].
      * apply iteration_model_calls in Hit. apply rounds_model_calls in Hr. lia.
      * replace (S n) with (n + 1) by lia.
        rewrite (tool_loop_rounds _ _ _ _ _ _ Hr), tool_loop_S, Hit.
        by destruct r as [[c|]|e|].
  - intros n s'. by apply tool_loop_pending.
Qed.

(** *** The handler as a whole *)

(** The state in which the loop of a request is entered, once the registry
    call left the process in [s1]. *)
Definition loop_entry (req : NextRequest) (s s1 : St W) : St W :=
  with_msgs (loop_store req (msg_arrays s)) s1.

Lemma loop_entry_history (req : NextRequest) (s s1 : St W) :
  history (current_loc req (msg_arrays s)) (loop_entry req s s1)
  = body_messages req.
Proof. unfold history, loop_entry. simpl. by rewrite loop_store_current. Qed.

Lemma content_or_sentinel_spec (message : Message) :
  (∀ text, msg_content message = Some text → text ≠ "" →
     ChatRoute.content_or_sentinel message = text)
  ∧ (msg_content message = None ∨ msg_content message = Some "" →
     ChatRoute.content_or_sentinel message = "No response.").
Proof.
  unfold ChatRoute.content_or_sentinel. split.
  - intros text -> Hne. by rewrite bool_decide_eq_false_2.
  - by intros [->| ->].
Qed.

(** C3 (a final answer ends the loop in one round).  When the registry is
    available and the first response of the model has no tool-call
    request, the handler, given fuel for at least one pass, returns
    [{content: c}], having invoked the model exactly once; [c] is the
    content of that response as it is, or the sentinel ["No response."]
    when the content is absent or empty. *)
Theorem final_answer_in_one_round
    (fuel : nat) (req : NextRequest) (s s1 : St W) (c : ClientRef) (t : loc)
    (w' : W) (message : Message) (others : list Message) :
  Registry.getMCPClient env cfg s = (Ret (c, t), s1) →
  model_answer (schemas_of t s1) (body_messages req) s1
  = (w', Value (mkChatResponse (message :: others))) →
  ChatRoute.no_tool_calls message = true →
  ∃ s',
    POST (S fuel) req s
    = (Ret {| content := ChatRoute.content_or_sentinel message |}, s')
    ∧ model_calls (log s') = model_calls (log s) + 1
    ∧ (∀ text, msg_content message = Some text → text ≠ "" →
         ChatRoute.content_or_sentinel message = text)
    ∧ (msg_content message = None ∨ msg_content message = Some "" →
         ChatRoute.content_or_sentinel message = "No response.").
Proof.
  intros Hreg Hanswer Hno.
  rewrite POST_run, Hreg. fold (loop_entry req s s1).
  set (cur := current_loc req (msg_arrays s)).
  destruct (iteration (schemas_of t s1) cur (loop_entry req s s1))
    as [r s'] eqn:Hit.
  pose proof (iteration_model_calls _ _ _ _ _ Hit) as Hcount.
  pose proof Hit as Hit'.
  apply iteration_run in Hit' as (appended & evs & Hpass & _).
  unfold cur in Hpass. rewrite loop_entry_history in Hpass.
  change (model_answer ?a ?b (loop_entry req s s1))
    with (model_answer a b s1) in Hpass.
  rewrite Hanswer in Hpass. simpl in Hpass.
  destruct (pass_of_final_response _ _ _ _ _ eq_refl Hno Hpass) as [-> _].
  exists s'. rewrite tool_loop_S, Hit.
  destruct (content_or_sentinel_spec message) as [H1 H2].
  split_and!; try done.
  apply RegistryFacts.getMCPClient_effects in Hreg
    as (_ & _ & (evs0 & Hl & Hnc) & _).
  change (log (loop_entry req s s1)) with (log s1) in Hcount.
  rewrite Hcount, Hl, model_calls_app, (no_model_call_count evs0) by done. lia.
Qed.

(** The first request whose arguments are not JSON text is the one at
    which a pass stops. *)
Lemma first_malformed (before after : list ToolCall) (call c : ToolCall)
    (e e' : JsError) (n : nat) :
  Forall well_formed before →
  parse_args call = Raised e →
  Forall well_formed (take n (before ++ call :: after)) →
  (before ++ call :: after) !! n = Some c →
  parse_args c = Raised e' →
  n = length before ∧ e' = e.
Proof.
  intros Hbefore Hcall Htake Hlk Hc.
  destruct (decide (n < length before)) as [Hlt|Hge].
  { rewrite lookup_app_l in Hlk by done.
    apply list_elem_of_lookup_2 in Hlk. rewrite Forall_forall in Hbefore.
    destruct (Hbefore c Hlk) as [a Ha]. congruence. }
  destruct (decide (n = length before)) as [->|Hne].
  { rewrite list_lookup_middle in Hlk by done. injection Hlk as <-.
    split; [done|congruence]. }
  exfalso.
  assert (Hin : call ∈ take n (before ++ call :: after)).
  { apply list_elem_of_lookup. exists (length before).
    rewrite lookup_take_lt by lia. by apply list_lookup_middle. }
  rewrite Forall_forall in Htake. destruct (Htake call Hin) as [a Ha]. congruence.
Qed.

(** C10 (arguments that are not JSON abort the request).  In any round of
    a request, let the model's response carry the requests
    [before ++ call :: after], where the arguments of those in [before]
    are JSON text and [JSON.parse] throws [e] on the arguments of [call].
    Then the handler itself throws [e]: the results of the requests in
    [before] have been appended, nothing was appended for [call] or for
    any request after it, and the model is not invoked again. *)
Theorem malformed_arguments_abort_request
    (fuel : nat) (req : NextRequest) (s s1 : St W) (c0 : ClientRef) (t : loc)
    (k : nat) (sk : St W) (w' : W) (message : Message) (others : list Message)
    (before after : list ToolCall) (call : ToolCall) (e : JsError) :
  Registry.getMCPClient env cfg s = (Ret (c0, t), s1) →
  rounds (schemas_of t s1) (current_loc req (msg_arrays s)) k
         (loop_entry req s s1) sk →
  model_answer (schemas_of t s1)
               (history (current_loc req (msg_arrays s)) sk) sk
  = (w', Value (mkChatResponse (message :: others))) →
  msg_tool_calls message = Some (before ++ call :: after) →
  Forall well_formed before →
  parse_args call = Raised e →
  k < fuel →
  ∃ s' results,
    POST fuel req s = (Throw e, s')
    ∧ history (current_loc req (msg_arrays s)) s'
      = history (current_loc req (msg_arrays s)) sk ++ message :: results
    ∧ Forall2 answers before results
    ∧ model_calls (log s') = model_calls (log sk) + 1.
Proof.
  intros Hreg Hrounds Hanswer Hcalls Hbefore Hcall Hk.
  set (cur := current_loc req (msg_arrays s)) in *.
  set (schemas := schemas_of t s1) in *.
  destruct (iteration schemas cur sk) as [r s'] eqn:Hit.
  pose proof (iteration_model_calls _ _ _ _ _ Hit) as Hcount.
  pose proof Hit as Hit'.
  apply iteration_run in Hit' as (appended & evs & Hpass & Hstore & _).
  rewrite Hanswer in Hpass. simpl in Hpass.
  assert (Hne : before ++ call :: after ≠ []) by (by destruct before).
  destruct (pass_of_tool_response _ _ _ _ _ _ eq_refl Hcalls Hne Hpass)
    as (results & -> & Hans & Hwf & Hcase).
  destruct Hcase as [[-> Hlen]|(e' & c & -> & Hlk & Hp)].
  { exfalso. rewrite Hlen, firstn_all in Hwf.
    apply Forall_app in Hwf as [_ Hwf]. apply Forall_cons in Hwf as [[a Ha] _].
    congruence. }
  destruct (first_malformed _ _ _ _ _ _ _ Hbefore Hcall Hwf Hlk Hp) as [Hlen ->].
  exists s', results. split_and!; try done.
  - rewrite POST_run, Hreg. fold (loop_entry req s s1). fold cur. fold schemas.
    assert (Hloop : tool_loop fuel schemas cur (loop_entry req s s1) = (Throw e, s')).
    { apply tool_loop_stops; [done|]. exists k, sk. by split_and!. }
    by rewrite Hloop.
  - unfold history at 1. rewrite Hstore. unfold history.
    destruct (msg_arrays sk !! cur) as [hist|] eqn:Hh.
    + by rewrite (append_at_lookup _ _ _ hist).
    + exfalso. clear -Hrounds Hh Hit Hstore.
      assert (Hentry : is_Some (msg_arrays (loop_entry req s s1) !! cur)).
      { unfold loop_entry, cur. simpl. rewrite loop_store_current. eauto. }
      induction Hrounds as [|n sa sb sc Hpass _ IH].
      * rewrite Hh in Hentry. by destruct Hentry.
      * apply IH; try done.
        apply iteration_run in Hpass as (? & ? & _ & -> & _).
        unfold append_at. by apply lookup_alter_is_Some.
  - rewrite Hlen in Hans. by rewrite take_app_length in Hans.
Qed.

(** C9 (runs are independent).  Fix a request and the process state apart
    from its message arrays.  Whatever message arrays [h] the process
    holds when the request arrives, be they left by earlier runs on the
    same history or not, the handler completes in the same way [r] and
    leaves the same state outside the message arrays (collaborators, log,
    registry).  The array built from the body, the one the caller
    supplied, holds the submitted messages at the end; every array that
    existed before is as it was; the only locations that changed are the
    two new ones, the body's array and the working copy, which are
    different from each other. *)
Theorem requests_do_not_share_messages (fuel : nat) (req : NextRequest) (s : St W) :
  ∃ r s0,
    ∀ h : gmap loc (list Message),
    ∃ h',
      POST fuel req (with_msgs h s) = (r, with_msgs h' s0)
      ∧ h' !! messages_loc h = Some (body_messages req)
      ∧ (∀ l, is_Some (h !! l) → h' !! l = h !! l)
      ∧ (∀ l, h' !! l ≠ h !! l → l = messages_loc h ∨ l = current_loc req h)
      ∧ h !! messages_loc h = None
      ∧ h !! current_loc req h = None
      ∧ current_loc req h ≠ messages_loc h.
Proof.
  destruct (Registry.getMCPClient env cfg s) as [r1 s1] eqn:Hreg.
  assert (Hregh : ∀ h, Registry.getMCPClient env cfg (with_msgs h s)
                       = (r1, with_msgs h s1)).
  { intros h. by rewrite RegistryFacts.getMCPClient_store, Hreg. }
  assert (Hbody : ∀ h,
            <[messages_loc h := body_messages req]> h !! messages_loc h
            = Some (body_messages req)
            ∧ (∀ l, is_Some (h !! l) →
                 <[messages_loc h := body_messages req]> h !! l = h !! l)
            ∧ (∀ l, <[messages_loc h := body_messages req]> h !! l ≠ h !! l →
                 l = messages_loc h ∨ l = current_loc req h)).
  { intros h. pose proof (messages_loc_fresh h) as Hf. split_and!.
    - by rewrite lookup_insert_eq.
    - intros l [x Hx]. rewrite lookup_insert_ne; [done|]. congruence.
    - intros l Hl. left. destruct (decide (l = messages_loc h)); [done|].
      by rewrite lookup_insert_ne in Hl. }
  destruct r1 as [[c t]|e|].
  - destruct (tool_loop_spec (schemas_of t s1) fuel (body_messages req) s1)
      as (r2 & appended & s2 & Hloop).
    exists (match r2 with
            | Ret finalResponse => Ret {| content := finalResponse |}
            | Throw e => Throw e
            | Pending => Pending
            end), s2.
    intros h. exists (append_at (current_loc req h) appended (loop_store req h)).
    pose proof (messages_loc_fresh h) as Hf.
    destruct (current_loc_fresh req h) as [Hne Hfc].
    split_and!; try done.
    + rewrite POST_run, Hregh. cbn [msg_arrays with_msgs].
      change (schemas_of t (with_msgs h s1)) with (schemas_of t s1).
      rewrite with_msgs_twice, Hloop by apply loop_store_current.
      by destruct r2.
    + rewrite append_at_lookup_ne by done. unfold loop_store.
      by rewrite lookup_insert_ne, lookup_insert_eq.
    + intros l [x Hx]. rewrite append_at_lookup_ne by congruence.
      unfold loop_store. rewrite !lookup_insert_ne; [done|congruence..].
    + intros l Hl. destruct (decide (l = current_loc req h)); [by right|left].
      destruct (decide (l = messages_loc h)); [done|].
      rewrite append_at_lookup_ne in Hl by done. unfold loop_store in Hl.
      by rewrite !lookup_insert_ne in Hl.
  - exists (Throw e), s1. intros h.
    exists (<[messages_loc h := body_messages req]> h).
    destruct (Hbody h) as (H1 & H2 & H3). destruct (current_loc_fresh req h).
    split_and!; try done; [|apply messages_loc_fresh].
    rewrite POST_run, Hregh. by rewrite with_msgs_twice.
  - exists Pending, s1. intros h.
    exists (<[messages_loc h := body_messages req]> h).
    destruct (Hbody h) as (H1 & H2 & H3). destruct (current_loc_fresh req h).
    split_and!; try done; [|apply messages_loc_fresh].
    rewrite POST_run, Hregh. by rewrite with_msgs_twice.
Qed.

(** *** Configuration *)

(** A model that asks for tools on every invocation, with arguments that
    are JSON text, keeps the loop going for as many passes as one cares to
    count: whatever the tools do, every pass is a full pass. *)
Lemma insisting_model_never_finishes :
  (∀ rq w, ∃ w' message others calls,
     chat_completions_create env (openai cfg) rq w
     = (w', Value (mkChatResponse (message :: others)))
     ∧ msg_tool_calls message = Some calls ∧ calls ≠ []
     ∧ Forall well_formed calls) →
  ∀ n schemas cur (s : St W),
    ∃ sn, rounds schemas cur n s sn
          ∧ tool_loop n schemas cur s = (Pending, sn)
          ∧ model_calls (log sn) = model_calls (log s) + n.
Proof.
  intros Hmodel n schemas cur.
  assert (Hr : ∀ s, ∃ sn, rounds schemas cur n s sn).
  { induction n as [|n IH]; intros s.
    - exists s. constructor.
    - destruct (Hmodel (ChatRoute.chat_request cfg schemas (history cur s)) (world s))
        as (w' & m & o & calls & Ha & Hc & Hne & Hwf).
      destruct (tool_response_gives_full_pass schemas cur s w' m o calls Ha Hc Hne Hwf)
        as [s1 Hit].
      destruct (IH s1) as [sn Hrounds]. exists sn. econstructor; eauto. }
  intros s. destruct (Hr s) as [sn Hrounds]. exists sn. split_and!; [done| |].
  - by apply tool_loop_pending.
  - by apply (rounds_model_calls schemas cur).
Qed.

End LoopFacts.
End LoopFacts.

(** ** The registry over the life of the process *)

Module ProcessFacts.
Section ProcessFacts.
Context {W : Type} (env : Env W) (cfg : Config).

(** What a computation keeps true, whatever its outcome. *)
Definition preserves (P : St W → Prop) {A} (m : M A) : Prop :=
  ∀ s r s', P s → m s = (r, s') → P s'.

Section Preserves.
Context (P : St W → Prop).

Lemma preserves_ret {A} (a : A) : preserves P (ret a).
Proof. by intros s r s' H [= <- <-]. Qed.

Lemma preserves_throw {A} (e : JsError) : preserves P (throw (A:=A) e).
Proof. by intros s r s' H [= <- <-]. Qed.

Lemma preserves_pending {A} : preserves P (pending (A:=A)).
Proof. by intros s r s' H [= <- <-]. Qed.

Lemma preserves_gets {A} (f : St W → A) : preserves P (gets f).
Proof. by intros s r s' H [= <- <-]. Qed.

Lemma preserves_lift {A} (o : Outcome A) : preserves P (lift o).
Proof. destruct o; [apply preserves_ret|apply preserves_throw]. Qed.

Lemma preserves_bind {A B} (m : M A) (f : A → M B) :
  preserves P m → (∀ a, preserves P (f a)) → preserves P (bind m f).
Proof.
  intros Hm Hf s r s' HP. unfold bind.
  destruct (m s) as [[a|e|] s1] eqn:Hms.
  - intros H. eapply Hf; [|exact H]. eapply Hm; eauto.
  - intros [= <- <-]. eapply Hm; eauto.
  - intros [= <- <-]. eapply Hm; eauto.
Qed.

Lemma preserves_try_catch {A} (m : M A) (h : JsError → M A) :
  preserves P m → (∀ e, preserves P (h e)) → preserves P (try_catch m h).
Proof.
  intros Hm Hh s r s' HP. unfold try_catch.
  destruct (m s) as [[a|e|] s1] eqn:Hms.
  - intros [= <- <-]. eapply Hm; eauto.
  - intros H. eapply Hh; [|exact H]. eapply Hm; eauto.
  - intros [= <- <-]. eapply Hm; eauto.
Qed.

End Preserves.

(** The registry holds client [c] and the tool list behind [t], and the
    store of tool lists is [ta]. *)
Definition registry_is (c : ClientRef) (t : loc)
    (ta : gmap loc (list ToolDescriptor)) (s : St W) : Prop :=
  mcpClient s = Some c ∧ tools s = t ∧ tool_arrays s = ta.

Section Stable.
Context (c : ClientRef) (t : loc) (ta : gmap loc (list ToolDescriptor)).

Local Abbreviation kept := (preserves (registry_is c t ta)).

Lemma kept_await {A} (ev : Event) (call : W → W * Outcome A) : kept (await ev call).
Proof.
  intros s r s' HP. unfold await.
  destruct (call (world s)) as [w' [a|e]]; by intros [= <- <-].
Qed.

Lemma kept_push (l : loc) (m : Message) : kept (push l m).
Proof. by intros s r s' HP [= <- <-]. Qed.

Lemma kept_new_msg_array (xs : list Message) : kept (new_msg_array xs).
Proof. by intros s r s' HP [= <- <-]. Qed.

Lemma kept_getMCPClient : kept (Registry.getMCPClient env cfg).
Proof.
  intros s r s' HP. pose proof HP as (Hc & _ & _).
  rewrite (RegistryFacts.getMCPClient_cached env cfg s c Hc). by intros [= <- <-].
Qed.

Create HintDb kept.
Hint Resolve preserves_ret preserves_throw preserves_pending preserves_gets
  preserves_lift preserves_bind preserves_try_catch kept_await kept_push
  kept_new_msg_array kept_getMCPClient : kept.

Lemma kept_callMCPTool (name : string) (args : JSON) :
  kept (Registry.callMCPTool env cfg name args).
Proof.
  unfold Registry.callMCPTool. apply preserves_bind; [auto with kept|].
  intros [client ?]. auto with kept.
Qed.

Lemma kept_run_tool_call (cur : loc) (call : ToolCall) :
  kept (ChatRoute.run_tool_call env cfg cur call).
Proof.
  unfold ChatRoute.run_tool_call.
  apply preserves_bind; [auto with kept|]. intros a.
  apply preserves_try_catch; [|auto with kept].
  apply preserves_bind; [apply kept_callMCPTool|auto with kept].
Qed.

Lemma kept_for_tool_calls (cur : loc) (calls : list ToolCall) :
  kept (ChatRoute.for_tool_calls env cfg cur calls).
Proof.
  induction calls as [|call rest IH]; simpl; [auto with kept|].
  apply preserves_bind; [apply kept_run_tool_call|done].
Qed.

Lemma kept_iteration (schemas : list ToolSchema) (cur : loc) :
  kept (ChatRoute.iteration env cfg schemas cur).
Proof.
  unfold ChatRoute.iteration, read_msg_array.
  apply preserves_bind; [auto with kept|]. intros msgs.
  apply preserves_bind; [auto with kept|]. intros response.
  apply preserves_bind.
  { unfold ChatRoute.first_choice. destruct (choices response); auto with kept. }
  intros message. apply preserves_bind; [auto with kept|]. intros _.
  destruct (ChatRoute.no_tool_calls message); [auto with kept|].
  apply preserves_bind; [apply kept_for_tool_calls|auto with kept].
Qed.

Lemma kept_tool_loop (fuel : nat) (schemas : list ToolSchema) (cur : loc) :
  kept (ChatRoute.tool_loop env cfg fuel schemas cur).
Proof.
  induction fuel as [|fuel IH]; simpl; [auto with kept|].
  apply preserves_bind; [apply kept_iteration|].
  intros [finalResponse|]; auto with kept.
Qed.

Lemma kept_POST (fuel : nat) (req : NextRequest) :
  kept (ChatRoute.POST env cfg fuel req).
Proof.
  unfold ChatRoute.POST, ChatRoute.req_json, ChatRoute.spread,
    read_tool_array, read_msg_array.
  apply preserves_bind; [auto with kept|]. intros messages.
  apply preserves_bind; [auto with kept|]. intros [? tools].
  apply preserves_bind; [auto with kept|]. intros ts.
  apply preserves_bind; [auto with kept|]. intros currentMessages.
  apply preserves_bind; [apply kept_tool_loop|auto with kept].
Qed.

End Stable.

(** [later s s']: the process gets from [s] to [s'] by running exported
    functions of the two server modules, any number of them, one after
    the other. *)
Inductive later : St W → St W → Prop :=
| later_now s : later s s
| later_getMCPClient s r s1 s2 :
    Registry.getMCPClient env cfg s = (r, s1) → later s1 s2 → later s s2
| later_callMCPTool name args s r s1 s2 :
    Registry.callMCPTool env cfg name args s = (r, s1) → later s1 s2 → later s s2
| later_POST fuel req s r s1 s2 :
    ChatRoute.POST env cfg fuel req s = (r, s1) → later s1 s2 → later s s2.

Lemma later_keeps_registry (c : ClientRef) (t : loc)
    (ta : gmap loc (list ToolDescriptor)) (s s' : St W) :
  later s s' → registry_is c t ta s → registry_is c t ta s'.
Proof.
  induction 1 as [|s r s1 s2 Hrun _ IH|name args s r s1 s2 Hrun _ IH
                 |fuel req s r s1 s2 Hrun _ IH]; [done|..]; intros HP; apply IH.
  - by eapply kept_getMCPClient.
  - by eapply kept_callMCPTool.
  - by eapply kept_POST.
Qed.

(** C5 (connect is idempotent).  Once a call of [getMCPClient] has
    succeeded with client [c] and tool list [t], every call made later in
    the process, after any number of chat requests, tool calls and other
    registry calls, returns the same client and the same tool-list
    reference and leaves the whole state as it is: nothing is logged, so
    there is no second handshake and no second tool-list fetch.  The array
    behind [t] still holds what the first fetch put there. *)
Theorem connect_idempotent (s s1 : St W) (c : ClientRef) (t : loc) :
  Registry.getMCPClient env cfg s = (Ret (c, t), s1) →
  ∀ s2 : St W,
    later s1 s2 →
    Registry.getMCPClient env cfg s2 = (Ret (c, t), s2)
    ∧ tool_arrays s2 !! t = tool_arrays s1 !! t.
Proof.
  intros H s2 Hlater.
  apply RegistryFacts.getMCPClient_returned in H as [Hc Ht].
  destruct (later_keeps_registry c t (tool_arrays s1) s1 s2 Hlater)
    as (Hc2 & Ht2 & Hta2); [done|].
  rewrite (RegistryFacts.getMCPClient_cached env cfg s2 c Hc2), Ht2, Hta2. done.
Qed.

End ProcessFacts.
End ProcessFacts.

(** ** The chat surface *)

Module SurfaceFacts.
Import ChatSurface.

(** A submit that is taken up, for one state of the surface: it appends
    the user message and issues a request. *)
Definition submit_is_sent (trim : string → string) (ui : Surface) : Prop :=
  ∃ ui1 sent,
    sendMessage trim ui ui = (ui1, Some sent)
    ∧ messages ui1 = messages ui ++ [mkChatMessage ui_user (Some (input ui))].

(** One submit, one request, one assistant message.  A submit with
    blank input, or while a request is in flight, is ignored: nothing is
    appended and nothing is sent.  Every other submit
    appends the user message to the visible history and issues one request
    to [/api/chat] whose body is the history before the submit followed by
    that message; submitting is then ignored, whatever is typed, until the
    request settles; when it settles exactly one assistant message is
    appended to the history of that moment, which carries the [content]
    of the body received or else the fixed error text, so the user
    message stays in place before it, and submitting is possible again. *)
Theorem submit_round_trip (trim : string → string) :
  (∀ ui, trim (input ui) = "" ∨ isLoading ui = true →
     sendMessage trim ui ui = (ui, None))
  ∧ (∀ ui, trim (input ui) ≠ "" → isLoading ui = false →
       let userMsg := mkChatMessage ui_user (Some (input ui)) in
       ∃ ui1 resume,
         sendMessage trim ui ui
         = (ui1, Some (mkFetch "/api/chat" "POST" (messages ui ++ [userMsg]),
                       resume))
         ∧ messages ui1 = messages ui ++ [userMsg]
         ∧ isLoading ui1 = true
         ∧ (∀ typed,
              sendMessage trim (setInput typed ui1) (setInput typed ui1)
              = (setInput typed ui1, None))
         ∧ ∀ reply ui',
             ∃ answer,
               messages (resume reply ui') = messages ui' ++ [answer]
               ∧ role answer = ui_assistant
               ∧ content answer
                 = match reply with
                   | Data data_content => data_content
                   | FetchRejects | JsonRejects => Some error_text
                   end
               ∧ input (resume reply ui') = input ui'
               ∧ isLoading (resume reply ui') = false).
Proof.
  split.
  - intros ui [H|H]; unfold sendMessage.
    + by rewrite bool_decide_eq_true_2.
    + rewrite H. by rewrite orb_true_r.
  - intros ui Hinput Hload userMsg. unfold sendMessage.
    rewrite bool_decide_eq_false_2, Hload by done. simpl.
    eexists _, _. split_and!; try done.
    { intros typed. unfold sendMessage. simpl. by rewrite orb_true_r. }
    intros reply ui'.
    exists (mkChatMessage ui_assistant
              match reply with
              | Data data_content => data_content
              | _ => Some error_text
              end).
    by destruct reply.
Qed.

(** A run: ["ack INC-7"] is submitted on top of one earlier exchange
    and the backend cannot be reached. *)
Lemma submit_round_trip_witness :
  let ui := mkSurface [mkChatMessage ui_user (Some "hi");
                       mkChatMessage ui_assistant (Some "Hello!")]
                      "ack INC-7" false in
  ∃ ui1 call resume,
    sendMessage ascii_trim ui ui = (ui1, Some (call, resume))
    ∧ fetch_body call = messages ui ++ [mkChatMessage ui_user (Some "ack INC-7")]
    ∧ messages (resume FetchRejects ui1)
      = messages ui ++ [mkChatMessage ui_user (Some "ack INC-7");
                        mkChatMessage ui_assistant (Some error_text)].
Proof.
  intros ui.
  destruct (submit_round_trip ascii_trim) as [_ H].
  destruct (H ui) as (ui1 & resume & Hs & Hm & Hl & _ & Hsettle);
    [vm_compute; discriminate | reflexivity |].
  destruct (Hsettle FetchRejects ui1) as (answer & Ha & Hr & Hc & _).
  exists ui1, (mkFetch "/api/chat" "POST"
                 (messages ui ++ [mkChatMessage ui_user (Some (input ui))])), resume.
  split_and!; [exact Hs | reflexivity |].
  rewrite Ha, Hm. destruct answer as [r c]. simpl in Hr, Hc.
  rewrite Hr, Hc. by rewrite <-app_assoc.
Defined.

(** The guard of line 18: Enter on three spaces appends nothing and
    sends nothing. *)
Lemma blank_submit_is_ignored :
  let ui := mkSurface [mkChatMessage ui_user (Some "hi");
                       mkChatMessage ui_assistant (Some "Hello!")]
                      "   " false in
  sendMessage ascii_trim ui ui = (ui, None)
  ∧ ¬ submit_is_sent ascii_trim ui.
Proof.
  intros ui. split; [reflexivity|].
  intros (ui1 & sent & H & _). vm_compute in H. discriminate.
Qed.

(** C7, at the failing input: ["ack INC-7"] is submitted on top of one
    earlier exchange and the server answers with an error status and a
    JSON body that has no [content], such as [{"error": ...}].  [fetch]
    resolves and so does [res.json()]; lines 34-35 never look at [res.ok]
    and append an assistant message whose content is [data.content], that
    is [undefined]: neither an answer nor the fixed error text.  When the
    body is not JSON the [catch] of line 36 appends the error text. *)
Theorem error_response_is_shown_as_answer :
  let ui := mkSurface [mkChatMessage ui_user (Some "hi");
                       mkChatMessage ui_assistant (Some "Hello!")]
                      "ack INC-7" false in
  let out := sendMessage ascii_trim ui ui in
  match out.2 with
  | Some (call, resume) =>
      messages (resume (Data None) out.1)
      = messages ui ++ [mkChatMessage ui_user (Some "ack INC-7");
                        mkChatMessage ui_assistant None]
      ∧ messages (resume JsonRejects out.1)
        = messages ui ++ [mkChatMessage ui_user (Some "ack INC-7");
                          mkChatMessage ui_assistant (Some error_text)]
  | None => False
  end.
Proof. intros ui out. vm_compute. split; reflexivity. Qed.

End SurfaceFacts.

(** ** Worked scenarios *)

(** What the route must refuse at once if the presence of its
    configuration were validated (C8 as stated). *)
Definition missing (cfg : Config) : Prop :=
  MCP_SERVER_URL cfg = None ∨ OPENAI_API_KEY cfg = None
  ∨ OPENAI_API_BASE cfg = None ∨ OPENAI_MODEL cfg = None.

(** The run ends in an error and nothing left the process before it. *)
Definition fails_fast {W A} (s : St W) (out : Res A * St W) : Prop :=
  ∃ e, out.1 = Throw e ∧ log out.2 = log s.

Definition validates_presence {W} (env : Env W) (cfg : Config)
    (new_OpenAI : OpenAI → Outcome OpenAI) : Prop :=
  missing cfg →
  ∀ fuel req s, fails_fast s (RouteModule.handle env cfg new_OpenAI fuel req s).

(** ** The configuration *)

Module RouteFacts.
Section RouteFacts.
Context {W : Type} (env : Env W) (cfg : Config).
Context (new_OpenAI : OpenAI → Outcome OpenAI).

Local Abbreviation load := (RouteModule.load cfg new_OpenAI).
Local Abbreviation handle := (RouteModule.handle env cfg new_OpenAI).

(** C8, as amended (a missing URL or key stops the request before the
    loop).  Given that the SDK's constructor throws when it gets no key:
    (1) without an API key loading the route module throws, and every
    request fails with that error, the handler not being run and the
    process left as it was; (2) without a tool-provider URL, a request
    made while no client is cached fails with what [new URL] throws for
    the text ["undefined"], before anything is sent to the tool provider
    or the model and with the registry left uncached. *)
Theorem missing_url_or_key_stops_the_request :
  (∀ options, apiKey options = None → ∃ e, new_OpenAI options = Raised e) →
  (OPENAI_API_KEY cfg = None →
     ∃ e, load = Raised e
          ∧ ∀ fuel req (s : St W), handle fuel req s = (Throw e, s))
  ∧ (∀ fuel req (s : St W) e,
       mcpClient s = None →
       MCP_SERVER_URL cfg = None →
       URL_new env "undefined" = Raised e →
       ∃ s', ChatRoute.POST env cfg fuel req s = (Throw e, s')
             ∧ log s' = log s ∧ world s' = world s ∧ mcpClient s' = None
             ∧ (∀ client, load = Value client →
                  handle fuel req s = (Throw e, s'))).
Proof.
  intros Hsdk. split.
  - intros Hkey. destruct (Hsdk (openai cfg) Hkey) as [e He].
    exists e. split; [exact He|]. intros fuel req s.
    unfold RouteModule.handle, RouteModule.load. by rewrite He.
  - intros fuel req s e Hc Hu Hurl. eexists.
    rewrite LoopFacts.POST_run,
      (RegistryFacts.getMCPClient_invalid_url env cfg s e Hc).
    + split_and!; try done. intros client Hload.
      unfold RouteModule.handle. rewrite Hload.
      rewrite LoopFacts.POST_run,
        (RegistryFacts.getMCPClient_invalid_url env cfg s e Hc); [done|].
      unfold Registry.url_argument. by rewrite Hu.
    + unfold Registry.url_argument. by rewrite Hu.
Qed.

End RouteFacts.
End RouteFacts.

Module Scenarios.
Import Sample.

(** The process once the registry has connected. *)
Definition connected : St World :=
  (Registry.getMCPClient (env (script [])) cfg boot).2.

Definition list_my_services : NextRequest :=
  mkRequest [from_user "list my services"].

Definition call_1 : ToolCall := mkCall "call_1" "list_services" "{}".

(** A tool the provider does not know: invoking it throws. *)
Definition call_restart : ToolCall := mkCall "call_7" "restart_service" "{}".

(** Arguments cut short by the model. *)
Definition call_cut : ToolCall :=
  mkCall "call_8" "acknowledge_incident" "{oops".

(** C5, run: the first call connects and lists the tools; after a chat
    request with one tool round, the next call returns the same pair and
    changes nothing. *)
Lemma connect_idempotent_witness :
  let env := env (script [asks [call_1]; says "You have 1 service: S1."]) in
  let s2 := (ChatRoute.POST env cfg 10 list_my_services connected).2 in
  Registry.getMCPClient env cfg s2 = (Ret (0, 1), s2)
  ∧ tool_arrays s2 !! 1 = Some [list_services; acknowledge_incident].
Proof.
  intros env s2.
  destruct (ProcessFacts.connect_idempotent env cfg boot connected 0 1) with (s2 := s2)
    as [H1 H2];
    [vm_compute; reflexivity | |split; [exact H1|etrans; [exact H2|reflexivity]]].
  apply ProcessFacts.later_POST
    with (fuel := 10) (req := list_my_services)
         (r := (ChatRoute.POST env cfg 10 list_my_services connected).1) (s1 := s2);
    [vm_compute; reflexivity | apply ProcessFacts.later_now].
Defined.

(** The module variable cleared, as it would be if a failed attempt left
    nothing behind. *)
Definition forget_client (s : St World) : St World :=
  mkSt (world s) None (tools s) (clients s) (tool_arrays s) (msg_arrays s) (log s).

(** C4, at the failing input: the tool provider refuses the connection
    of the first request and is back afterwards.  The first
    [getMCPClient] throws; the second returns the client that never
    connected, together with the initial empty tool list, and leaves the
    state as it is: nothing is retried, the log still shows the single
    attempt of the first call.  Had the first call left the module
    variable empty, the second would have connected and listed the
    tools. *)
Theorem failed_connect_is_cached :
  let env := env (script []) in
  let first := Registry.getMCPClient env cfg boot_during_outage in
  first.1 = Throw (mkError "Error" "fetch failed")
  ∧ Registry.getMCPClient env cfg first.2 = (Ret (0, 0), first.2)
  ∧ tool_arrays first.2 !! 0 = Some []
  ∧ log first.2 = [EvConnect 0 (mkURL "http://localhost:8000/mcp")]
  ∧ (Registry.getMCPClient env cfg (forget_client first.2)).1 = Ret (1, 1)
  ∧ tool_arrays (Registry.getMCPClient env cfg (forget_client first.2)).2 !! 1
    = Some [list_services; acknowledge_incident].
Proof. intros env first. split_and!; vm_compute; reflexivity. Qed.

(** The empty object is JSON text. *)
Lemma empty_object_is_well_formed (id name : string) :
  LoopFacts.well_formed (Sample.env (script [])) (mkCall id name "{}").
Proof. exists (JObject []). vm_compute. reflexivity. Qed.

(** Spec section 8, scenario 5. *)
Example one_tool_round :
  ∃ s', ChatRoute.POST
          (env (script [asks [call_1]; says "You have 1 service: S1."]))
          cfg 10 list_my_services boot
        = (Ret {| content := "You have 1 service: S1." |}, s')
          ∧ model_calls (log s') = 2.
Proof.
  exists (ChatRoute.POST
            (env (script [asks [call_1]; says "You have 1 service: S1."]))
            cfg 10 list_my_services boot).2.
  split; vm_compute; reflexivity.
Qed.

(** A run: the model asks for [list_services] and for the unknown
    [restart_service]; both requests are answered, in that order. *)
Lemma tool_results_follow_requests_witness :
  let env := env (script [asks [call_1; call_restart]]) in
  let s := with_msgs {[ 5 := [from_user "list my services"] ]} connected in
  let out := ChatRoute.iteration env cfg [] 5 s in
  ∃ results,
    msg_arrays out.2 !! 5
    = Some ([from_user "list my services"] ++ asks [call_1; call_restart] :: results)
    ∧ msg_tool_call_id <$> results = [Some "call_1"; Some "call_7"].
Proof.
  intros env s out.
  destruct (LoopFacts.tool_results_follow_requests env cfg [] 5 s
              [from_user "list my services"] (mkWorld 1 0)
              (asks [call_1; call_restart]) []
              [call_1; call_restart] out.1 out.2)
    as (results & Hstore & _ & _ & _ & Hfull & Hwf);
    [vm_compute; reflexivity | reflexivity | reflexivity | discriminate
    | vm_compute; reflexivity |].
  exists results. split; [exact Hstore|].
  apply Hfull, Hwf.
  apply Forall_cons; split; [apply empty_object_is_well_formed|].
  apply Forall_cons; split; [apply empty_object_is_well_formed|].
  apply Forall_nil_2.
Defined.

(** C3, run (spec section 8, scenario 6). *)
Lemma final_answer_in_one_round_witness :
  let env := env (script [says "Hello! How can I help?"]) in
  ∃ s', ChatRoute.POST env cfg 1 (mkRequest [from_user "hello"]) boot
        = (Ret {| content := "Hello! How can I help?" |}, s')
        ∧ model_calls (log s') = 1.
Proof.
  intros env.
  destruct (LoopFacts.final_answer_in_one_round env cfg 0
              (mkRequest [from_user "hello"]) boot connected 0 1 (mkWorld 1 0)
              (says "Hello! How can I help?") [])
    as (s' & Hpost & Hcount & _);
    [vm_compute; reflexivity | reflexivity | reflexivity |].
  exists s'. split; [exact Hpost | exact Hcount].
Defined.

(** A model that never stops asking for the same tool. *)
Definition insisting (n : nat) : Outcome ChatResponse :=
  Value (mkChatResponse [asks [call_1]]).

(** A run: two full passes, and the loop is still going. *)
Lemma loop_has_no_round_bound_witness :
  let env := env insisting in
  let s := with_msgs {[ 5 := [from_user "list my services"] ]} connected in
  let s1 := (ChatRoute.iteration env cfg [] 5 s).2 in
  let s2 := (ChatRoute.iteration env cfg [] 5 s1).2 in
  ChatRoute.tool_loop env cfg 2 [] 5 s = (Pending, s2)
  ∧ model_calls (log s2) = model_calls (log s) + 2.
Proof.
  intros env s s1 s2.
  destruct (LoopFacts.loop_has_no_round_bound env cfg [] 5 s) as (_ & _ & H & _).
  destruct (H 2 s2) as (Hpending & Hcount & _); [|split; assumption].
  apply LoopFacts.rounds_S with s1; [vm_compute; reflexivity|].
  apply LoopFacts.rounds_S with s2; [vm_compute; reflexivity|].
  apply LoopFacts.rounds_O.
Defined.

(** With that model the loop is unfinished after any number of passes. *)
Example insisting_model_runs_forever (n : nat) :
  ∃ sn, ChatRoute.tool_loop (env insisting) cfg n [] 5 connected = (Pending, sn)
        ∧ model_calls (log sn) = model_calls (log connected) + n.
Proof.
  destruct (LoopFacts.insisting_model_never_finishes (env insisting) cfg)
    with (n := n) (schemas := @nil ToolSchema) (cur := 5) (s := connected)
    as (sn & _ & H1 & H2).
  - intros rq w.
    exists (mkWorld (S (asked w)) (outage w)), (asks [call_1]), [], [call_1].
    split_and!; [done..|].
    apply Forall_cons; split; [apply empty_object_is_well_formed|].
    apply Forall_nil_2.
  - eauto.
Qed.

(** C10, run: the second request of the first response has arguments that
    are not JSON. *)
Lemma malformed_arguments_abort_request_witness :
  let env := env (script [asks [call_1; call_cut]; says "Done."]) in
  ∃ s' results,
    ChatRoute.POST env cfg 10 list_my_services boot
    = (Throw (JsonText.syntax_error "{oops"), s')
    ∧ Forall2 answers [call_1] results
    ∧ model_calls (log s') = 1.
Proof.
  intros env.
  destruct (LoopFacts.malformed_arguments_abort_request env cfg 10
              list_my_services boot connected 0 1 0
              (LoopFacts.loop_entry list_my_services boot connected)
              (mkWorld 1 0) (asks [call_1; call_cut]) [] [call_1] [] call_cut
              (JsonText.syntax_error "{oops"))
    as (s' & results & Hpost & _ & Hans & Hcount);
    [vm_compute; reflexivity | apply LoopFacts.rounds_O | reflexivity
    | reflexivity
    | apply Forall_cons; split;
        [apply empty_object_is_well_formed | apply Forall_nil_2]
    | vm_compute; reflexivity | lia |].
  exists s', results. split_and!; [exact Hpost | exact Hans | exact Hcount].
Defined.

(** C2, at the failing input: the first request names a tool the provider
    rejects, the second has arguments that are not JSON.  The failed
    invocation is reported to the model's history as an ["Error: ..."]
    result, and then [JSON.parse] of the second request, on line 48 and
    outside the [try] of line 50, throws out of the loop and out of the
    handler.  The model is not invoked a second time. *)
Theorem parse_error_aborts_after_failed_tool :
  let env := env (script [asks [call_restart; call_cut]; says "Done."]) in
  let out := ChatRoute.POST env cfg 10 list_my_services boot in
  out.1 = Throw (JsonText.syntax_error "{oops")
  ∧ LoopFacts.history 1 out.2
    = [from_user "list my services";
       asks [call_restart; call_cut];
       ChatRoute.tool_message "call_7" "Error: Unknown tool: restart_service"]
  ∧ model_calls (log out.2) = 1.
Proof. intros env out. split_and!; vm_compute; reflexivity. Qed.

(** The same round without the cut arguments: both failures of the
    provider are reported and the loop goes on to the final answer. *)
Example failed_tools_do_not_abort :
  let env := env (script [asks [call_restart; call_restart]; says "Done."]) in
  let out := ChatRoute.POST env cfg 10 list_my_services boot in
  out.1 = Ret {| content := "Done." |}
  ∧ LoopFacts.history 1 out.2
    = [from_user "list my services";
       asks [call_restart; call_restart];
       ChatRoute.tool_message "call_7" "Error: Unknown tool: restart_service";
       ChatRoute.tool_message "call_7" "Error: Unknown tool: restart_service";
       says "Done."].
Proof. intros env out. split; vm_compute; reflexivity. Qed.

(** No model identifier is configured. *)
Definition cfg_without_model : Config :=
  {| MCP_SERVER_URL := Some "http://localhost:8000/mcp";
     OPENAI_API_KEY := Some "sk-local";
     OPENAI_API_BASE := Some "http://localhost:1234/v1";
     OPENAI_MODEL := None |}.

(** No tool-provider URL is configured. *)
Definition cfg_without_url : Config :=
  {| MCP_SERVER_URL := None;
     OPENAI_API_KEY := Some "sk-local";
     OPENAI_API_BASE := Some "http://localhost:1234/v1";
     OPENAI_MODEL := Some "gpt-4o-mini" |}.

(** No base URL is configured. *)
Definition cfg_without_base_url : Config :=
  {| MCP_SERVER_URL := Some "http://localhost:8000/mcp";
     OPENAI_API_KEY := Some "sk-local";
     OPENAI_API_BASE := None;
     OPENAI_MODEL := Some "gpt-4o-mini" |}.

(** No API key is configured. *)
Definition cfg_without_key : Config :=
  {| MCP_SERVER_URL := Some "http://localhost:8000/mcp";
     OPENAI_API_KEY := None;
     OPENAI_API_BASE := Some "http://localhost:1234/v1";
     OPENAI_MODEL := Some "gpt-4o-mini" |}.

(** C8 as stated fails for the model identifier and for the base URL.
    Without a model identifier the route is loaded, the handler connects,
    invokes the backend with [model] undefined and, the backend answering
    all the same, returns that answer.  Without a base URL the client is
    built all the same and the request is answered. *)
Lemma missing_model_or_base_url_is_not_detected :
  let env := env (script [says "Hello!"]) in
  let hello := mkRequest [from_user "hello"] in
  let out := RouteModule.handle env cfg_without_model new_OpenAI 10 hello boot in
  let out' := RouteModule.handle env cfg_without_base_url new_OpenAI 10 hello boot in
  out.1 = Ret {| content := "Hello!" |}
  ∧ (∃ rq, log out.2 !! 2 = Some (EvChat (openai cfg_without_model) rq)
           ∧ req_model rq = None)
  ∧ ¬ validates_presence env cfg_without_model new_OpenAI
  ∧ out'.1 = Ret {| content := "Hello!" |}
  ∧ (∃ rq, log out'.2 !! 2 = Some (EvChat (mkOpenAI (Some "sk-local") None) rq))
  ∧ ¬ validates_presence env cfg_without_base_url new_OpenAI.
Proof.
  intros env hello out out'. split_and!.
  - vm_compute. reflexivity.
  - exists (ChatRoute.chat_request cfg_without_model
              (map ChatRoute.toolSchema [list_services; acknowledge_incident])
              [from_user "hello"]).
    split; vm_compute; reflexivity.
  - intros H.
    destruct (H (or_intror (or_intror (or_intror eq_refl))) 10 hello boot)
      as (e & He & _).
    vm_compute in He. discriminate.
  - vm_compute. reflexivity.
  - exists (ChatRoute.chat_request cfg_without_base_url
              (map ChatRoute.toolSchema [list_services; acknowledge_incident])
              [from_user "hello"]).
    vm_compute. reflexivity.
  - intros H.
    destruct (H (or_intror (or_intror (or_introl eq_refl))) 10 hello boot)
      as (e & He & _).
    vm_compute in He. discriminate.
Qed.

(** C8 as amended, run: without an API key no request is handled;
    without a tool-provider URL the first request fails inside
    [new URL], before anything is sent. *)
Lemma missing_url_or_key_stops_the_request_witness :
  let env := env (script [says "Hello!"]) in
  let hello := mkRequest [from_user "hello"] in
  (∃ e, RouteModule.handle env cfg_without_key new_OpenAI 10 hello boot
        = (Throw e, boot)
        ∧ err_name e = "OpenAIError")
  ∧ ∃ s', RouteModule.handle env cfg_without_url new_OpenAI 10 hello boot
          = (Throw (mkError "TypeError" "Invalid URL"), s')
          ∧ log s' = [].
Proof.
  intros env hello.
  assert (Hsdk : ∀ options, apiKey options = None →
                   ∃ e, new_OpenAI options = Raised e).
  { intros options H. unfold new_OpenAI. rewrite H. by eexists. }
  split.
  - destruct (RouteFacts.missing_url_or_key_stops_the_request env cfg_without_key
                new_OpenAI Hsdk) as (Hkey & _).
    destruct (Hkey eq_refl) as (e & Hload & Hall).
    exists e. split; [apply Hall|].
    vm_compute in Hload. injection Hload as <-. reflexivity.
  - destruct (RouteFacts.missing_url_or_key_stops_the_request env cfg_without_url
                new_OpenAI Hsdk) as (_ & Hurl).
    destruct (Hurl 10 hello boot (mkError "TypeError" "Invalid URL"))
      as (s' & _ & Hlog & _ & _ & Hhandle); [reflexivity..|].
    exists s'. split; [|exact Hlog].
    apply (Hhandle (openai cfg_without_url)). reflexivity.
Defined.

(** C9, run: the same history is submitted twice.  The second run starts
    from the submitted history alone and works on arrays of its own; the
    arrays of the first run are as that run left them. *)
Example resubmission_is_a_new_run :
  let env := env (script [asks [call_1]; says "One."; says "Two."]) in
  let first := ChatRoute.POST env cfg 10 list_my_services boot in
  let second := ChatRoute.POST env cfg 10 list_my_services first.2 in
  first.1 = Ret {| content := "One." |}
  ∧ second.1 = Ret {| content := "Two." |}
  ∧ msg_arrays second.2 !! 0 = Some [from_user "list my services"]
  ∧ msg_arrays second.2 !! 1 = msg_arrays first.2 !! 1
  ∧ msg_arrays second.2 !! 2 = Some [from_user "list my services"]
  ∧ msg_arrays second.2 !! 3 = Some [from_user "list my services"; says "Two."].
Proof. intros env first second. split_and!; vm_compute; reflexivity. Qed.

(** C1, at the failing input: the first response carries [N = 2]
    requests and the arguments of the second are not JSON.  The assistant
    message is appended with both requests as sent, the first request is
    invoked and answered, and then [JSON.parse] of the second, on line 48
    and outside the [try] of line 50, throws out of the loop and out of
    the handler: the history holds one tool-result message, not two, and
    the request ends there. *)
Theorem fewer_results_than_requests :
  let env := env (script [asks [call_1; call_cut]; says "Done."]) in
  let out := ChatRoute.POST env cfg 10 list_my_services boot in
  out.1 = Throw (JsonText.syntax_error "{oops")
  ∧ LoopFacts.history 1 out.2
    = [from_user "list my services";
       asks [call_1; call_cut];
       ChatRoute.tool_message "call_1"
         (JsonText.stringify
            (JObject [("services", JArray [JObject [("id", JString "S1")]])]))]
  ∧ omap msg_tool_call_id (LoopFacts.history 1 out.2) = ["call_1"]
  ∧ model_calls (log out.2) = 1.
Proof. intros env out. split_and!; vm_compute; reflexivity. Qed.

(** A model that never stops asking for a tool, with arguments cut
    short. *)
Definition insisting_cut (n : nat) : Outcome ChatResponse :=
  Value (mkChatResponse [asks [call_cut]]).

(** C6, at the failing input: every response of the model carries a
    tool-call request, yet the loop makes no second round.  [JSON.parse]
    of the arguments, on line 48 and outside the [try] of line 50, throws
    out of the [while] loop in the first round, however many rounds are
    allowed: the request fails after one model invocation. *)
Theorem request_with_cut_arguments_ends_the_loop :
  let env := env insisting_cut in
  (∀ n, ∃ calls, insisting_cut n = Value (mkChatResponse [asks calls])
                 ∧ (1 ≤ length calls)%nat)
  ∧ ∀ fuel,
      let out := ChatRoute.POST env cfg (S fuel) list_my_services boot in
      out.1 = Throw (JsonText.syntax_error "{oops")
      ∧ model_calls (log out.2) = 1.
Proof.
  intros env. split.
  - intros n. exists [call_cut]. split; [reflexivity|simpl; lia].
  - intros fuel out. split; vm_compute; reflexivity.
Qed.

End Scenarios.

(** * Further properties of the server modules *)

(** The model requests among the events of a stretch of the log. *)
Definition requests_of (evs : list Event) : list ChatRequest :=
  omap (λ ev, match ev with EvChat _ rq => Some rq | _ => None end) evs.

(** The provider calls among them. *)
Definition is_provider_call (ev : Event) : bool :=
  match ev with EvCallTool _ _ _ => true | _ => false end.

Definition provider_calls_of (evs : list Event) : list Event :=
  filter is_provider_call evs.

Lemma requests_of_app evs1 evs2 :
  requests_of (evs1 ++ evs2) = requests_of evs1 ++ requests_of evs2.
Proof. apply omap_app. Qed.

Lemma requests_of_no_model_call evs : no_model_call evs → requests_of evs = [].
Proof.
  unfold no_model_call. induction evs as [|ev evs IH]; [done|].
  rewrite filter_cons. destruct ev; simpl; try done.
Qed.

Module ServerExtras.
Section ServerExtras.
Context {W : Type} (env : Env W) (cfg : Config).

Local Abbreviation getMCPClient := (Registry.getMCPClient env cfg).
Local Abbreviation callMCPTool := (Registry.callMCPTool env cfg).
Local Abbreviation run_tool_call := (ChatRoute.run_tool_call env cfg).
Local Abbreviation for_tool_calls := (ChatRoute.for_tool_calls env cfg).
Local Abbreviation iteration := (ChatRoute.iteration env cfg).
Local Abbreviation tool_loop := (ChatRoute.tool_loop env cfg).
Local Abbreviation POST := (ChatRoute.POST env cfg).
Local Abbreviation parse_args :=
  (λ c : ToolCall, JSON_parse env (call_function_arguments c)).
Local Abbreviation well_formed := (LoopFacts.well_formed env).
Local Abbreviation history := LoopFacts.history.
Local Abbreviation schemas_of := LoopFacts.schemas_of.
Local Abbreviation rounds := (LoopFacts.rounds env cfg).
Local Abbreviation model_answer := (LoopFacts.model_answer env cfg).

(** *** lib/mcp *)

(** The state after one provider call made through [client]. *)
Definition called (client : ClientRef) (name : string) (args : JSON)
    (s : St W) : St W :=
  mkSt (Client_callTool env client name args (world s)).1
       (mcpClient s) (tools s) (clients s) (tool_arrays s) (msg_arrays s)
       (log s ++ [EvCallTool client name args]).

Lemma callMCPTool_cached (client : ClientRef) (name : string) (args : JSON)
    (s : St W) :
  mcpClient s = Some client →
  callMCPTool name args s
  = (match (Client_callTool env client name args (world s)).2 with
     | Value result => Ret result
     | Raised e => Throw e
     end, called client name args s).
Proof.
  intros Hc. unfold Registry.callMCPTool, bind.
  rewrite (RegistryFacts.getMCPClient_cached env cfg s client Hc).
  unfold await, called.
  by destruct (Client_callTool env client name args (world s)) as [w' [result|e]].
Qed.

(** X1 (a tool call makes at most one provider call, as given).
    Whatever state [callMCPTool name args] runs in, its log gains at most
    one provider call, and that call carries [name] and [args] as they
    were given.  It gains none exactly when [getMCPClient] threw, and then
    [callMCPTool] throws that same error.  The model is never invoked. *)
Theorem callMCPTool_calls_provider_once (name : string) (args : JSON)
    (s : St W) r s' :
  callMCPTool name args s = (r, s') →
  ∃ evs,
    log s' = log s ++ evs
    ∧ requests_of evs = []
    ∧ ((∃ client, provider_calls_of evs = [EvCallTool client name args]
                  ∧ (getMCPClient s).1 = Ret (client, tools s')
                  ∧ mcpClient s' = Some client)
       ∨ (provider_calls_of evs = []
          ∧ ∃ e, r = Throw e ∧ getMCPClient s = (Throw e, s'))).
Proof.
  unfold Registry.callMCPTool, bind.
  destruct (getMCPClient s) as [r1 s1] eqn:Hreg.
  pose proof (RegistryFacts.getMCPClient_effects env cfg s r1 s1 Hreg)
    as (Hpend & _ & (evs & Hlog & Hno) & _ & Hret).
  assert (Hnone : provider_calls_of evs = []).
  { clear -Hreg Hlog. revert Hreg Hlog.
    destruct s as [w mc t n ta ma l].
    unfold Registry.getMCPClient. unfold_monad. simpl.
    destruct mc.
    { intros [= <- <-]. simpl. intros H.
      apply (f_equal length) in H. rewrite length_app in H.
      destruct evs; [done|simpl in H; lia]. }
    destruct (URL_new env _); simpl.
    2:{ intros [= <- <-]. simpl. intros H.
        apply (f_equal length) in H. rewrite length_app in H.
        destruct evs; [done|simpl in H; lia]. }
    destruct (Client_connect env _ _ _) as [w1 [[]|e1]]; simpl.
    2:{ intros [= <- <-]. simpl. intros H. apply app_inv_head in H. by subst. }
    destruct (Client_listTools env _ _) as [w2 [ts|e2]]; simpl.
    all: intros [= <- <-]; simpl; rewrite <-app_assoc; intros H.
    all: apply app_inv_head in H; by subst. }
  destruct r1 as [[client t]|e|]; [| |done].
  - destruct (Hret client t eq_refl) as [Hc Ht].
    unfold await.
    destruct (Client_callTool env client name args (world s1)) as [w' [res|e]].
    all: intros [= <- <-]; exists (evs ++ [EvCallTool client name args]).
    all: rewrite Hlog, <-app_assoc; split_and!; [done| |].
    all: try (rewrite requests_of_app, requests_of_no_model_call by done; done).
    all: left; exists client; unfold provider_calls_of in *.
    all: rewrite filter_app, Hnone; simpl; split_and!; try done.
    all: by rewrite <-Ht.
  - intros [= <- <-]. exists evs. split_and!; [done| |].
    + by apply requests_of_no_model_call.
    + right. split; [done|]. by exists e.
Qed.

(** X2 (the first connection fetches the tool list once).  With no client
    cached, a valid URL, a provider that accepts the connection and then
    lists [ts]: [getMCPClient] logs exactly one [connect] followed by one
    [listTools], both for the client object it has just built, and returns
    that client with a reference to a new array, unknown to the process
    before, that holds exactly [ts]; both module variables are set to what
    it returns and no other array is touched. *)
Theorem first_connect_lists_tools (s : St W) (url : URL) (w1 w2 : W)
    (ts : list ToolDescriptor) :
  mcpClient s = None →
  URL_new env (Registry.url_argument cfg) = Value url →
  Client_connect env (clients s) url (world s) = (w1, Value tt) →
  Client_listTools env (clients s) w1 = (w2, Value ts) →
  ∃ s' t,
    getMCPClient s = (Ret (clients s, t), s')
    ∧ log s' = log s ++ [EvConnect (clients s) url; EvListTools (clients s)]
    ∧ tool_arrays s !! t = None
    ∧ tool_arrays s' !! t = Some ts
    ∧ (∀ l, l ≠ t → tool_arrays s' !! l = tool_arrays s !! l)
    ∧ mcpClient s' = Some (clients s) ∧ tools s' = t
    ∧ world s' = w2 ∧ msg_arrays s' = msg_arrays s.
Proof.
  destruct s as [w mc t0 n ta ma l]. simpl. intros -> Hu Hc Hl.
  unfold Registry.getMCPClient. unfold_monad. simpl.
  rewrite Hu. simpl. rewrite Hc. simpl. rewrite Hl. simpl.
  eexists _, _. split_and!; try done; simpl.
  - by rewrite <-app_assoc.
  - apply not_elem_of_dom. apply is_fresh.
  - by rewrite lookup_insert_eq.
  - intros l0 Hne. by rewrite lookup_insert_ne.
Qed.

(** *** The [for] loop with a connected registry *)

(** The tool-result message for a request whose invocation ended in [o]. *)
Definition result_message (c : ToolCall) (o : Outcome ToolResult) : Message :=
  ChatRoute.tool_message (call_id c)
    match o with
    | Value result => JSON_stringify env (result_content result)
    | Raised e => "Error: " +:+ err_message e
    end.

(** The requests of one response served in order by the provider, reached
    through [client], from world [w] on: the completion, the world left
    behind, the messages to append and the provider calls made.  Serving
    stops at the first arguments string that is not JSON text. *)
Fixpoint serve (client : ClientRef) (calls : list ToolCall) (w : W)
    : Res unit * W * list Message * list Event :=
  match calls with
  | [] => (Ret tt, w, [], [])
  | c :: rest =>
      match parse_args c with
      | Raised e => (Throw e, w, [], [])
      | Value a =>
          let '(w1, o) := Client_callTool env client (call_function_name c) a w in
          let '(r, w2, ms, evs) := serve client rest w1 in
          (r, w2, result_message c o :: ms,
           EvCallTool client (call_function_name c) a :: evs)
      end
  end.

Lemma run_tool_call_cached (client : ClientRef) (cur : loc) (c : ToolCall)
    (a : JSON) (s : St W) :
  mcpClient s = Some client →
  parse_args c = Value a →
  run_tool_call cur c s
  = (Ret tt,
     with_msgs
       (append_at cur
          [result_message c
             (Client_callTool env client (call_function_name c) a (world s)).2]
          (msg_arrays s))
       (called client (call_function_name c) a s)).
Proof.
  intros Hc Hp.
  pose proof (callMCPTool_cached client (call_function_name c) a s Hc) as Hcall.
  unfold result_message.
  destruct (Client_callTool env client (call_function_name c) a (world s)).2
    as [result|e] eqn:Ho; simpl.
  - by rewrite (LoopFacts.run_tool_call_returned env cfg cur c a result s _ Hp Hcall).
  - by rewrite (LoopFacts.run_tool_call_raised env cfg cur c a e s _ Hp Hcall).
Qed.

(** X3 (a round is a left-to-right fold over the requests).  With a
    client cached, the [for] loop does exactly what serving the requests
    in order does: one provider call per request, each made in the world
    the previous one left; for each request one tool message, carrying
    [JSON.stringify(result.content)] when its invocation returned and
    ["Error: "] followed by the error message when it threw; nothing else
    in the process changes. *)
Theorem for_tool_calls_is_serve (client : ClientRef) (cur : loc)
    (calls : list ToolCall) (s : St W) :
  mcpClient s = Some client →
  for_tool_calls cur calls s
  = let '(r, w2, ms, evs) := serve client calls (world s) in
    (r, mkSt w2 (mcpClient s) (tools s) (clients s) (tool_arrays s)
             (append_at cur ms (msg_arrays s)) (log s ++ evs)).
Proof.
  revert s. induction calls as [|c rest IH]; intros s Hc.
  { simpl. unfold ret. rewrite append_at_nil, app_nil_r. by destruct s. }
  cbn [ChatRoute.for_tool_calls serve]. unfold bind at 1.
  destruct (parse_args c) as [a|e] eqn:Hp.
  2:{ rewrite (LoopFacts.run_tool_call_parse_error env cfg cur c e s Hp).
      rewrite append_at_nil, app_nil_r. by destruct s. }
  rewrite (run_tool_call_cached client cur c a s Hc Hp).
  rewrite IH by done.
  unfold called. cbn [world mcpClient tools clients tool_arrays msg_arrays log with_msgs].
  destruct (Client_callTool env client (call_function_name c) a (world s))
    as [w1 o]. cbn [fst snd].
  destruct (serve client rest w1) as [[[r w2] ms] evs].
  rewrite append_at_app, <-app_assoc. done.
Qed.

(** The provider call that handling [c] makes. *)
Definition call_event (client : ClientRef) (c : ToolCall) : Event :=
  EvCallTool client (call_function_name c)
    match parse_args c with Value a => a | Raised _ => JNull end.

(** X4 (requests are invoked in the order received, one call each).
    With a client cached, the provider calls logged by the [for] loop are
    the calls for a prefix of the requests, in the order of the requests,
    each through the cached client and with the name and the parsed
    arguments of its request; there is no handshake and no model
    invocation among them.  The prefix is the whole list when the loop
    completes; when the loop throws, it ends right before the first
    request whose arguments are not JSON text. *)
Theorem tool_calls_run_in_request_order (client : ClientRef) (cur : loc)
    (calls : list ToolCall) (s : St W) r s' :
  mcpClient s = Some client →
  for_tool_calls cur calls s = (r, s') →
  ∃ k,
    log s' = log s ++ (call_event client <$> take k calls)
    ∧ Forall well_formed (take k calls)
    ∧ match r with
      | Ret _ => k = length calls
      | Throw e => ∃ c, calls !! k = Some c ∧ parse_args c = Raised e
      | Pending => False
      end.
Proof.
  revert s. induction calls as [|c rest IH]; intros s Hc.
  { intros [= <- <-]. exists 0. split_and!; try done. by rewrite app_nil_r. }
  cbn [ChatRoute.for_tool_calls]. unfold bind at 1.
  destruct (parse_args c) as [a|e] eqn:Hp.
  2:{ rewrite (LoopFacts.run_tool_call_parse_error env cfg cur c e s Hp).
      intros [= <- <-]. exists 0. split_and!; try done.
      - by rewrite app_nil_r.
      - by exists c. }
  rewrite (run_tool_call_cached client cur c a s Hc Hp).
  intros H. apply IH in H as (k & Hlog & Hwf & Hr); [|done].
  exists (S k). split_and!.
  - rewrite Hlog. simpl. rewrite <-app_assoc. simpl.
    unfold call_event at 2. by rewrite Hp.
  - simpl. constructor; [by exists a|done].
  - destruct r; [by rewrite Hr|done..].
Qed.

(** *** The handler *)

(** X5 (no registry, no model invocation).  When [getMCPClient] throws,
    the handler throws the same error, whatever the fuel: the model is
    not invoked, nothing is logged beyond what the registry call logged,
    and the registry is as that call left it. *)
Theorem registry_failure_aborts_request (fuel : nat) (req : NextRequest)
    (s s1 : St W) (e : JsError) :
  getMCPClient s = (Throw e, s1) →
  ∃ s',
    POST fuel req s = (Throw e, s')
    ∧ log s' = log s1
    ∧ model_calls (log s') = model_calls (log s)
    ∧ mcpClient s' = mcpClient s1 ∧ tools s' = tools s1 ∧ world s' = world s1.
Proof.
  intros Hreg. rewrite LoopFacts.POST_run, Hreg. eexists. split; [done|].
  apply RegistryFacts.getMCPClient_effects in Hreg
    as (_ & _ & (evs & Hl & Hno) & _).
  split_and!; try done. simpl.
  by rewrite Hl, model_calls_app, (no_model_call_count evs), Nat.add_0_r.
Qed.

(** The pass that follows [k] full passes of a request, seen from the
    handler. *)
Lemma POST_stops_with_pass (fuel : nat) (req : NextRequest) (s s1 : St W)
    (c : ClientRef) (t : loc) (k : nat) (sk s' : St W) (e : JsError) :
  getMCPClient s = (Ret (c, t), s1) →
  rounds (schemas_of t s1) (LoopFacts.current_loc req (msg_arrays s)) k
         (LoopFacts.loop_entry req s s1) sk →
  iteration (schemas_of t s1) (LoopFacts.current_loc req (msg_arrays s)) sk
  = (Throw e, s') →
  k < fuel →
  POST fuel req s = (Throw e, s').
Proof.
  intros Hreg Hrounds Hit Hk.
  rewrite LoopFacts.POST_run, Hreg. fold (LoopFacts.loop_entry req s s1).
  assert (Hloop : tool_loop fuel (schemas_of t s1)
                    (LoopFacts.current_loc req (msg_arrays s))
                    (LoopFacts.loop_entry req s s1) = (Throw e, s')).
  { apply LoopFacts.tool_loop_stops; [done|]. exists k, sk. by split_and!. }
  by rewrite Hloop.
Qed.

(** X6 (a failing model backend aborts the request).  In any round of a
    request, when the model invocation rejects with [e] the handler throws
    [e]: the working history is what the round started from, no tool is
    called in that round, and this invocation is the last event logged. *)
Theorem backend_error_aborts_request
    (fuel : nat) (req : NextRequest) (s s1 : St W) (c : ClientRef) (t : loc)
    (k : nat) (sk : St W) (w' : W) (e : JsError) :
  getMCPClient s = (Ret (c, t), s1) →
  rounds (schemas_of t s1) (LoopFacts.current_loc req (msg_arrays s)) k
         (LoopFacts.loop_entry req s s1) sk →
  model_answer (schemas_of t s1)
               (history (LoopFacts.current_loc req (msg_arrays s)) sk) sk
  = (w', Raised e) →
  k < fuel →
  ∃ s',
    POST fuel req s = (Throw e, s')
    ∧ msg_arrays s' = msg_arrays sk
    ∧ log s'
      = log sk ++ [EvChat (openai cfg)
                     (ChatRoute.chat_request cfg (schemas_of t s1)
                        (history (LoopFacts.current_loc req (msg_arrays s)) sk))]
    ∧ world s' = w'.
Proof.
  intros Hreg Hrounds Hanswer Hk.
  set (cur := LoopFacts.current_loc req (msg_arrays s)) in *.
  assert (Hit : iteration (schemas_of t s1) cur sk
                = (Throw e, LoopFacts.invoked env cfg (schemas_of t s1)
                              (history cur sk) sk)).
  { unfold ChatRoute.iteration, bind at 1, read_msg_array, gets.
    fold (history cur sk). unfold bind at 1, await.
    unfold LoopFacts.model_answer in Hanswer. rewrite Hanswer.
    unfold LoopFacts.invoked, LoopFacts.model_answer. by rewrite Hanswer. }
  eexists. split; [by eapply POST_stops_with_pass|].
  unfold LoopFacts.invoked, LoopFacts.model_answer. simpl.
  unfold LoopFacts.model_answer in Hanswer. by rewrite Hanswer.
Qed.

(** X7 (a response without choices aborts the request).  In any round,
    when the backend answers with an empty [choices] array, reading
    [response.choices[0].message] throws a [TypeError] and the handler
    throws it: nothing is appended to the history in that round. *)
Theorem empty_choices_abort_request
    (fuel : nat) (req : NextRequest) (s s1 : St W) (c : ClientRef) (t : loc)
    (k : nat) (sk : St W) (w' : W) :
  getMCPClient s = (Ret (c, t), s1) →
  rounds (schemas_of t s1) (LoopFacts.current_loc req (msg_arrays s)) k
         (LoopFacts.loop_entry req s s1) sk →
  model_answer (schemas_of t s1)
               (history (LoopFacts.current_loc req (msg_arrays s)) sk) sk
  = (w', Value (mkChatResponse [])) →
  k < fuel →
  ∃ s',
    POST fuel req s = (Throw LoopFacts.no_choice, s')
    ∧ err_name LoopFacts.no_choice = "TypeError"
    ∧ msg_arrays s' = msg_arrays sk
    ∧ model_calls (log s') = model_calls (log sk) + 1.
Proof.
  intros Hreg Hrounds Hanswer Hk.
  set (cur := LoopFacts.current_loc req (msg_arrays s)) in *.
  assert (Hit : iteration (schemas_of t s1) cur sk
                = (Throw LoopFacts.no_choice,
                   LoopFacts.invoked env cfg (schemas_of t s1) (history cur sk) sk)).
  { unfold ChatRoute.iteration, bind at 1, read_msg_array, gets.
    fold (history cur sk). unfold bind at 1, await.
    unfold LoopFacts.model_answer in Hanswer. rewrite Hanswer.
    unfold LoopFacts.invoked, LoopFacts.model_answer. by rewrite Hanswer. }
  eexists. split; [by eapply POST_stops_with_pass|].
  split_and!; try done.
  by apply (LoopFacts.iteration_model_calls env cfg) in Hit.
Qed.

(** X8 (the response content is never empty).  Whenever the handler
    returns, the [content] of its body is not the empty string, and the
    model was invoked at least once. *)
Theorem response_content_is_never_empty (fuel : nat) (req : NextRequest)
    (s : St W) (response : Response) (s' : St W) :
  POST fuel req s = (Ret response, s') →
  content response ≠ "" ∧ model_calls (log s) < model_calls (log s').
Proof.
  rewrite LoopFacts.POST_run.
  destruct (getMCPClient s) as [[[c t]|e|] s1] eqn:Hreg; [|done..].
  destruct (tool_loop _ _ _ _) as [[finalResponse|e|] s2] eqn:Hloop; [|done..].
  intros [= <- <-]. simpl.
  apply LoopFacts.tool_loop_stops in Hloop as (k & sk & Hk & Hrounds & Hit);
    [|done].
  apply RegistryFacts.getMCPClient_effects in Hreg
    as (_ & _ & (evs0 & Hl0 & Hno0) & _).
  apply (LoopFacts.rounds_model_calls env cfg) in Hrounds. simpl in Hrounds.
  pose proof (LoopFacts.iteration_model_calls env cfg _ _ _ _ _ Hit) as Hcount.
  split.
  - apply LoopFacts.iteration_run in Hit as (appended & evs & Hpass & _).
    inversion Hpass; subst.
    unfold ChatRoute.content_or_sentinel.
    destruct (msg_content message) as [text|]; [|done].
    case_bool_decide; done.
  - rewrite Hcount, Hrounds, Hl0, model_calls_app, (no_model_call_count evs0) by done.
    lia.
Qed.

(** *** What one request sends, and to whom *)

(** The events of the loop: model invocations, and tool calls through
    [client]. *)
Definition loop_event (client : ClientRef) (ev : Event) : Prop :=
  match ev with
  | EvChat _ _ => True
  | EvCallTool c _ _ => c = client
  | _ => False
  end.

(** [replayed schemas hist rqs]: the requests [rqs] are the loop's, from
    the history [hist] on: the first carries [hist], and each later one
    carries the messages of the one before followed by at least two more
    (the model's message and a result per tool call). *)
Fixpoint replayed (schemas : list ToolSchema) (hist : list Message)
    (rqs : list ChatRequest) : Prop :=
  match rqs with
  | [] => True
  | rq :: rest =>
      rq = ChatRoute.chat_request cfg schemas hist
      ∧ match rest with
        | [] => True
        | next :: _ =>
            (∃ more, (2 ≤ length more)%nat ∧ req_messages next = hist ++ more)
            ∧ replayed schemas (req_messages next) rest
        end
  end.

Lemma requests_of_call_events (client : ClientRef) (calls : list ToolCall) :
  requests_of (call_event client <$> calls) = [].
Proof. by induction calls. Qed.

Lemma loop_event_call_events (client : ClientRef) (calls : list ToolCall) :
  Forall (loop_event client) (call_event client <$> calls).
Proof. induction calls; by constructor. Qed.

Lemma for_tool_calls_trace (client : ClientRef) (cur : loc)
    (calls : list ToolCall) (s : St W) r s' :
  mcpClient s = Some client →
  for_tool_calls cur calls s = (r, s') →
  ∃ k ms,
    log s' = log s ++ (call_event client <$> take k calls)
    ∧ msg_arrays s' = append_at cur ms (msg_arrays s)
    ∧ length ms = k
    ∧ (r = Ret tt → k = length calls).
Proof.
  revert s. induction calls as [|c rest IH]; intros s Hc.
  { intros [= <- <-]. exists 0, []. split_and!; try done.
    - by rewrite app_nil_r.
    - by rewrite append_at_nil. }
  cbn [ChatRoute.for_tool_calls]. unfold bind at 1.
  destruct (parse_args c) as [a|e] eqn:Hp.
  2:{ rewrite (LoopFacts.run_tool_call_parse_error env cfg cur c e s Hp).
      intros [= <- <-]. exists 0, []. split_and!; try done.
      - by rewrite app_nil_r.
      - by rewrite append_at_nil. }
  rewrite (run_tool_call_cached client cur c a s Hc Hp).
  intros H. apply IH in H as (k & ms & Hlog & Hstore & Hlen & Hr); [|done].
  exists (S k), (result_message c (Client_callTool env client
                    (call_function_name c) a (world s)).2 :: ms).
  split_and!.
  - rewrite Hlog. simpl. rewrite <-app_assoc. simpl.
    unfold call_event at 2. by rewrite Hp.
  - rewrite Hstore. simpl. by rewrite append_at_app.
  - simpl. by rewrite Hlen.
  - intros ->. simpl. by rewrite Hr.
Qed.

(** One pass, for a process whose registry holds [client]. *)
Lemma iteration_trace (client : ClientRef) (schemas : list ToolSchema)
    (cur : loc) (hist : list Message) (s : St W) r s' :
  mcpClient s = Some client →
  msg_arrays s !! cur = Some hist →
  iteration schemas cur s = (r, s') →
  ∃ appended evs,
    log s' = log s ++ EvChat (openai cfg) (ChatRoute.chat_request cfg schemas hist)
                   :: evs
    ∧ Forall (loop_event client) evs
    ∧ requests_of evs = []
    ∧ msg_arrays s' !! cur = Some (hist ++ appended)
    ∧ (r = Ret None → (2 ≤ length appended)%nat).
Proof.
  intros Hc Hcur.
  unfold ChatRoute.iteration, bind at 1, read_msg_array, gets.
  rewrite Hcur. cbn [default]. unfold bind at 1, await, id.
  destruct (chat_completions_create env (openai cfg)
              (ChatRoute.chat_request cfg schemas hist) (world s))
    as [w' [response|e]]; [destruct response as [choices0];
                           destruct choices0 as [|message others]|].
  - intros [= <- <-]. exists [], []. split_and!; try done.
    simpl. by rewrite app_nil_r.
  - unfold bind at 1. cbn [ChatRoute.first_choice choices ret].
    unfold bind at 1. rewrite LoopFacts.push_store.
    cbn [msg_arrays world mcpClient tools clients tool_arrays log with_msgs].
    destruct (ChatRoute.no_tool_calls message) eqn:Hno.
    + intros [= <- <-]. exists [message], []. split_and!; try done.
      simpl. unfold append_at. by rewrite lookup_alter_eq, Hcur.
    + apply LoopFacts.no_tool_calls_false in Hno as (calls & Hcalls & Hne).
      rewrite Hcalls. cbn [default]. unfold bind at 1.
      destruct (for_tool_calls cur calls _) as [r0 s0] eqn:Hfor.
      apply (for_tool_calls_trace client) in Hfor
        as (k & ms & Hlog & Hstore & Hlen & Hr); [|done].
      simpl in Hlog, Hstore. rewrite append_at_app in Hstore.
      assert (Hs0 : msg_arrays s0 !! cur = Some (hist ++ message :: ms)).
      { rewrite Hstore. unfold append_at. by rewrite lookup_alter_eq, Hcur. }
      assert (Hl0 : log s0 = log s ++ EvChat (openai cfg)
                        (ChatRoute.chat_request cfg schemas hist)
                      :: (call_event client <$> take k calls)).
      { rewrite Hlog. by rewrite <-app_assoc. }
      intros Hrun. exists (message :: ms), (call_event client <$> take k calls).
      assert (s' = s0 ∧ (r = Ret None → r0 = Ret tt)) as [-> Hret].
      { destruct r0 as [[]| |]; injection Hrun as <- <-; by split. }
      split_and!; try done.
      * apply loop_event_call_events.
      * apply requests_of_call_events.
      * intros Hn. specialize (Hr (Hret Hn)). simpl.
        destruct calls; [done|]. simpl in Hr. lia.
  - intros [= <- <-]. exists [], []. split_and!; try done.
    simpl. by rewrite app_nil_r.
Qed.

(** The whole loop. *)
Lemma tool_loop_trace (client : ClientRef) (schemas : list ToolSchema)
    (cur : loc) (fuel : nat) (hist : list Message) (s : St W) r s' :
  mcpClient s = Some client →
  msg_arrays s !! cur = Some hist →
  tool_loop fuel schemas cur s = (r, s') →
  ∃ evs,
    log s' = log s ++ evs
    ∧ Forall (loop_event client) evs
    ∧ replayed schemas hist (requests_of evs).
Proof.
  revert hist s. induction fuel as [|fuel IH]; intros hist s Hc Hcur.
  { intros [= <- <-]. exists []. split_and!; try done. by rewrite app_nil_r. }
  rewrite LoopFacts.tool_loop_S.
  destruct (iteration schemas cur s) as [r1 s1] eqn:Hit.
  pose proof (ProcessFacts.kept_iteration env cfg client (tools s) (tool_arrays s)
                schemas cur s r1 s1 (conj Hc (conj eq_refl eq_refl)) Hit)
    as (Hc1 & _).
  apply (iteration_trace client schemas cur hist) in Hit
    as (appended & evs1 & Hlog1 & Hev1 & Hrq1 & Hcur1 & Hlen); [|done..].
  assert (Hone : ∀ r2, (r2, s1) = (r, s') →
            ∃ evs, log s' = log s ++ evs ∧ Forall (loop_event client) evs
                   ∧ replayed schemas hist (requests_of evs)).
  { intros r2 [= _ <-]. eexists. split; [exact Hlog1|]. split.
    - by constructor.
    - simpl. by rewrite Hrq1. }
  destruct r1 as [[finalResponse|]|e|]; [by apply Hone| |by apply Hone..].
  intros Hloop. apply (IH (hist ++ appended)) in Hloop
    as (evs2 & Hlog2 & Hev2 & Hrq2); [|done..].
  exists (EvChat (openai cfg) (ChatRoute.chat_request cfg schemas hist)
            :: evs1 ++ evs2).
  split_and!.
  - rewrite Hlog2, Hlog1. by rewrite <-app_assoc.
  - constructor; [done|]. by apply Forall_app.
  - simpl. rewrite requests_of_app, Hrq1. simpl. split; [done|].
    destruct (requests_of evs2) as [|next rest]; [done|].
    destruct Hrq2 as [-> Hrest]. simpl. split.
    + exists appended. split; [by apply Hlen|done].
    + split; [done|exact Hrest].
Qed.

(** The loop of a request, once the registry has answered. *)
Lemma POST_trace (fuel : nat) (req : NextRequest) (s s1 : St W)
    (c : ClientRef) (t : loc) r s' :
  getMCPClient s = (Ret (c, t), s1) →
  POST fuel req s = (r, s') →
  ∃ evs,
    log s' = log s1 ++ evs
    ∧ Forall (loop_event c) evs
    ∧ replayed (schemas_of t s1) (body_messages req) (requests_of evs)
    ∧ mcpClient s' = Some c ∧ tools s' = t ∧ tool_arrays s' = tool_arrays s1.
Proof.
  intros Hreg. rewrite LoopFacts.POST_run, Hreg.
  apply RegistryFacts.getMCPClient_returned in Hreg as [Hc Ht].
  destruct (tool_loop _ _ _ _) as [r2 s2] eqn:Hloop. intros Hrun.
  assert (s' = s2) as ->. { by destruct r2; injection Hrun as <- <-. }
  pose proof (ProcessFacts.kept_tool_loop env cfg c t (tool_arrays s1) _ _ _
                (with_msgs (LoopFacts.loop_store req (msg_arrays s)) s1)
                _ _ (conj Hc (conj Ht eq_refl)) Hloop) as (? & ? & ?).
  apply (tool_loop_trace c _ _ _ (body_messages req)) in Hloop
    as (evs & Hlog & Hev & Hrq); [|done|].
  2:{ simpl. apply LoopFacts.loop_store_current. }
  exists evs. by split_and!.
Qed.

Lemma replayed_fixed (schemas : list ToolSchema) (rqs : list ChatRequest) :
  ∀ hist, replayed schemas hist rqs →
  ∀ rq, rq ∈ rqs → ∃ h, rq = ChatRoute.chat_request cfg schemas h.
Proof.
  induction rqs as [|rq0 rest IH]; intros hist Hrep rq Hin.
  { by apply elem_of_nil in Hin. }
  destruct Hrep as [Heq Hrest].
  apply elem_of_cons in Hin as [->|Hin]; [by exists hist|].
  destruct rest as [|next l]; [by apply elem_of_nil in Hin|].
  destruct Hrest as [_ Hrest]. by apply (IH (req_messages next)).
Qed.

Lemma replayed_grows (schemas : list ToolSchema) (rqs : list ChatRequest) :
  ∀ hist, replayed schemas hist rqs →
  ∀ i a b, rqs !! i = Some a → rqs !! S i = Some b →
  ∃ more, (2 ≤ length more)%nat ∧ req_messages b = req_messages a ++ more.
Proof.
  induction rqs as [|rq0 rest IH]; intros hist Hrep i a b Ha Hb; [done|].
  destruct Hrep as [Heq Hrest].
  destruct rest as [|next l]; [done|].
  destruct Hrest as [Hmore Hrest].
  destruct i as [|i].
  - simpl in Ha, Hb. injection Ha as <-. injection Hb as <-. by subst rq0.
  - by apply (IH (req_messages next) Hrest i).
Qed.

Lemma replayed_head (schemas : list ToolSchema) (hist : list Message)
    (rqs : list ChatRequest) (rq : ChatRequest) :
  replayed schemas hist rqs → head rqs = Some rq → req_messages rq = hist.
Proof. destruct rqs; [done|]. by intros [-> _] [= <-]. Qed.

(** What the handler logs, whether or not the registry answers. *)
Lemma POST_requests (fuel : nat) (req : NextRequest) (s : St W) r s' :
  POST fuel req s = (r, s') →
  ∃ evs schemas,
    log s' = log s ++ evs
    ∧ replayed schemas (body_messages req) (requests_of evs)
    ∧ (∀ c t s1, getMCPClient s = (Ret (c, t), s1) → schemas = schemas_of t s1).
Proof.
  intros Hrun.
  destruct (getMCPClient s) as [r1 s1] eqn:Hreg.
  pose proof (RegistryFacts.getMCPClient_effects env cfg _ _ _ Hreg)
    as (_ & _ & (evs0 & Hl0 & Hno0) & _).
  destruct r1 as [[c t]|e|].
  - destruct (POST_trace fuel req s s1 c t r s' Hreg Hrun)
      as (evs & Hlog & _ & Hrep & _).
    exists (evs0 ++ evs), (schemas_of t s1). split_and!.
    + by rewrite Hlog, Hl0, <-app_assoc.
    + by rewrite requests_of_app, (requests_of_no_model_call evs0), app_nil_l.
    + by intros ? ? ? [= _ <- <-].
  - rewrite LoopFacts.POST_run, Hreg in Hrun. injection Hrun as <- <-.
    exists evs0, []. split_and!; [done| |done].
    by rewrite (requests_of_no_model_call evs0).
  - rewrite LoopFacts.POST_run, Hreg in Hrun. injection Hrun as <- <-.
    exists evs0, []. split_and!; [done| |done].
    by rewrite (requests_of_no_model_call evs0).
Qed.

(** X9 (one registry call per request).  Once [getMCPClient] has returned
    the client [c] on line 13, the handler performs no handshake and no
    tool listing: all it does towards the outside is invoke the model and
    call tools through [c].  The registry (client, tool list, and the
    arrays behind them) is at the end of the request as that call left
    it, whatever the outcome of the request. *)
Theorem loop_uses_only_the_registry_client (fuel : nat) (req : NextRequest)
    (s s1 : St W) (c : ClientRef) (t : loc) r s' :
  getMCPClient s = (Ret (c, t), s1) →
  POST fuel req s = (r, s') →
  ∃ evs,
    log s' = log s1 ++ evs
    ∧ Forall (loop_event c) evs
    ∧ mcpClient s' = Some c ∧ tools s' = t ∧ tool_arrays s' = tool_arrays s1.
Proof.
  intros Hreg Hrun.
  destruct (POST_trace fuel req s s1 c t r s' Hreg Hrun)
    as (evs & Hlog & Hev & _ & Hc & Ht & Hta).
  exists evs. by split_and!.
Qed.

(** X10 (the tools are fixed when the request starts).  Every model
    invocation of a request carries the same [tools]: one schema of type
    ["function"] per descriptor of the list the registry returned on
    line 13, in the order of that list, together with the configured
    model, [tool_choice] ["auto"] and temperature 0.7. *)
Theorem every_request_offers_the_listed_tools (fuel : nat) (req : NextRequest)
    (s s1 : St W) (c : ClientRef) (t : loc) (ts : list ToolDescriptor) r s' :
  getMCPClient s = (Ret (c, t), s1) →
  tool_arrays s1 !! t = Some ts →
  POST fuel req s = (r, s') →
  ∃ evs,
    log s' = log s ++ evs
    ∧ ∀ rq, rq ∈ requests_of evs →
        req_tools rq = map ChatRoute.toolSchema ts
        ∧ schema_type <$> req_tools rq = replicate (length ts) "function"
        ∧ schema_function_name <$> req_tools rq = tool_name <$> ts
        ∧ req_model rq = OPENAI_MODEL cfg
        ∧ req_tool_choice rq = "auto"
        ∧ req_temperature rq = "0.7".
Proof.
  intros Hreg Hts Hrun.
  destruct (POST_requests fuel req s r s' Hrun) as (evs & schemas & Hlog & Hrep & Hs).
  rewrite (Hs c t s1 Hreg) in Hrep.
  exists evs. split; [done|]. intros rq Hin.
  destruct (replayed_fixed _ _ _ Hrep rq Hin) as (h & ->).
  unfold schemas_of. rewrite Hts. simpl. split_and!; try done.
  - clear. induction ts as [|d ts IH]; [done|]. simpl. f_equal. exact IH.
  - clear. induction ts as [|d ts IH]; [done|]. simpl. f_equal. exact IH.
Qed.

(** X11 (the history is replayed and only grows).  Within one request the
    first model invocation is sent the messages of the request body, as
    they are; every later invocation is sent the messages of the
    invocation before it, unchanged and in place, followed by at least two
    more.  Nothing is dropped, reordered or summarised between
    invocations. *)
Theorem history_is_replayed_and_grows (fuel : nat) (req : NextRequest)
    (s : St W) r s' :
  POST fuel req s = (r, s') →
  ∃ evs,
    log s' = log s ++ evs
    ∧ (∀ rq, head (requests_of evs) = Some rq →
         req_messages rq = body_messages req)
    ∧ (∀ i a b,
         requests_of evs !! i = Some a → requests_of evs !! S i = Some b →
         ∃ more, (2 ≤ length more)%nat
                 ∧ req_messages b = req_messages a ++ more).
Proof.
  intros Hrun.
  destruct (POST_requests fuel req s r s' Hrun) as (evs & schemas & Hlog & Hrep & _).
  exists evs. split_and!; [done| |].
  - intros rq. by apply replayed_head with schemas.
  - by apply replayed_grows with schemas (body_messages req).
Qed.

End ServerExtras.
End ServerExtras.

(** ** Runs of the server modules *)

Module ServerRuns.
Import Sample.

Definition one_round : Env World :=
  env (script [asks [Scenarios.call_1]; says "You have 1 service: S1."]).

Definition hello : NextRequest := mkRequest [from_user "hello"].

(** X1, run: the first tool call of a process connects, lists the tools
    and calls the provider once. *)
Lemma callMCPTool_calls_provider_once_witness :
  let out := Registry.callMCPTool one_round cfg "list_services" (JObject []) boot in
  ∃ evs, log out.2 = log boot ++ evs
         ∧ provider_calls_of evs = [EvCallTool 0 "list_services" (JObject [])].
Proof.
  intros out.
  destruct (ServerExtras.callMCPTool_calls_provider_once one_round cfg
              "list_services" (JObject []) boot out.1 out.2)
    as (evs & Hlog & _ & [(client & Hcalls & Hret & _)|(_ & e & Hthrow & _)]);
    [vm_compute; reflexivity | | discriminate Hthrow].
  exists evs. split; [exact Hlog|].
  injection Hret as <-. exact Hcalls.
Defined.

(** X2, run: the first call of a process. *)
Lemma first_connect_lists_tools_witness :
  ∃ s' t,
    Registry.getMCPClient one_round cfg boot = (Ret (0, t), s')
    ∧ tool_arrays s' !! t = Some [list_services; acknowledge_incident]
    ∧ tool_arrays boot !! t = None.
Proof.
  destruct (ServerExtras.first_connect_lists_tools one_round cfg boot
              (mkURL "http://localhost:8000/mcp") (mkWorld 0 0) (mkWorld 0 0)
              [list_services; acknowledge_incident])
    as (s' & t & Hrun & _ & Hnew & Hts & _); [reflexivity..|].
  exists s', t. split_and!; [exact Hrun | exact Hts | exact Hnew].
Defined.

(** X3, run: two requests, the second for a tool the provider rejects. *)
Lemma for_tool_calls_is_serve_witness :
  let s := with_msgs {[ 5 := [from_user "list my services"] ]} Scenarios.connected in
  ChatRoute.for_tool_calls one_round cfg 5 [Scenarios.call_1; Scenarios.call_restart] s
  = let '(r, w2, ms, evs) :=
      ServerExtras.serve one_round 0 [Scenarios.call_1; Scenarios.call_restart]
                         (world s) in
    (r, mkSt w2 (mcpClient s) (tools s) (clients s) (tool_arrays s)
             (append_at 5 ms (msg_arrays s)) (log s ++ evs)).
Proof.
  intros s.
  apply (ServerExtras.for_tool_calls_is_serve one_round cfg 0 5
           [Scenarios.call_1; Scenarios.call_restart] s).
  reflexivity.
Defined.

(** X4, run: the second of three requests has arguments that are not
    JSON; the first is invoked, the third is not. *)
Lemma tool_calls_run_in_request_order_witness :
  let s := with_msgs {[ 5 := [from_user "list my services"] ]} Scenarios.connected in
  let out := ChatRoute.for_tool_calls one_round cfg 5
               [Scenarios.call_1; Scenarios.call_cut; Scenarios.call_restart] s in
  ∃ k, log out.2
       = log s ++ (ServerExtras.call_event one_round 0
                     <$> take k [Scenarios.call_1; Scenarios.call_cut;
                                 Scenarios.call_restart])
       ∧ (k < 3)%nat.
Proof.
  intros s out.
  destruct (ServerExtras.tool_calls_run_in_request_order one_round cfg 0 5
              [Scenarios.call_1; Scenarios.call_cut; Scenarios.call_restart]
              s out.1 out.2)
    as (k & Hlog & _ & Hr); [reflexivity | vm_compute; reflexivity |].
  exists k. split; [exact Hlog|].
  change out.1 with (@Throw unit (JsonText.syntax_error "{oops")) in Hr.
  destruct Hr as (c & Hc & _). apply lookup_lt_Some in Hc. exact Hc.
Defined.

(** X5, run: the tool provider refuses the connection. *)
Lemma registry_failure_aborts_request_witness :
  ∃ s', ChatRoute.POST one_round cfg 10 hello boot_during_outage
        = (Throw (mkError "Error" "fetch failed"), s')
        ∧ model_calls (log s') = 0.
Proof.
  destruct (ServerExtras.registry_failure_aborts_request one_round cfg 10 hello
              boot_during_outage
              (Registry.getMCPClient one_round cfg boot_during_outage).2
              (mkError "Error" "fetch failed"))
    as (s' & Hrun & _ & Hcount & _); [vm_compute; reflexivity|].
  exists s'. split; [exact Hrun | exact Hcount].
Defined.

(** X6, run: the model backend is unreachable. *)
Lemma backend_error_aborts_request_witness :
  ∃ s', ChatRoute.POST (env (script [])) cfg 10 hello boot
        = (Throw (mkError "APIConnectionError" "Connection error."), s')
        ∧ msg_arrays s'
          = msg_arrays (LoopFacts.loop_entry hello boot Scenarios.connected).
Proof.
  destruct (ServerExtras.backend_error_aborts_request (env (script [])) cfg 10
              hello boot Scenarios.connected 0 1 0
              (LoopFacts.loop_entry hello boot Scenarios.connected)
              (mkWorld 1 0) (mkError "APIConnectionError" "Connection error."))
    as (s' & Hrun & Hstore & _);
    [vm_compute; reflexivity | apply LoopFacts.rounds_O | reflexivity | lia |].
  exists s'. split; [exact Hrun | exact Hstore].
Defined.

(** A backend that answers without choices. *)
Definition no_choices (n : nat) : Outcome ChatResponse :=
  Value (mkChatResponse []).

(** X7, run. *)
Lemma empty_choices_abort_request_witness :
  ∃ s', ChatRoute.POST (env no_choices) cfg 10 hello boot
        = (Throw (mkError "TypeError"
                    "Cannot read properties of undefined (reading 'message')"), s')
        ∧ model_calls (log s') = 1.
Proof.
  destruct (ServerExtras.empty_choices_abort_request (env no_choices) cfg 10
              hello boot Scenarios.connected 0 1 0
              (LoopFacts.loop_entry hello boot Scenarios.connected)
              (mkWorld 1 0))
    as (s' & Hrun & _ & _ & Hcount);
    [vm_compute; reflexivity | apply LoopFacts.rounds_O | reflexivity | lia |].
  exists s'. split; [exact Hrun | exact Hcount].
Defined.

(** X8, run: the model answers with the empty string. *)
Lemma response_content_is_never_empty_witness :
  let out := ChatRoute.POST (env (script [says ""])) cfg 10 hello boot in
  out.1 = Ret {| content := "No response." |}
  ∧ content {| content := "No response." |} ≠ "".
Proof.
  intros out.
  assert (Hrun : out = (Ret {| content := "No response." |}, out.2))
    by (vm_compute; reflexivity).
  split; [by rewrite Hrun|].
  apply (ServerExtras.response_content_is_never_empty (env (script [says ""]))
           cfg 10 hello boot _ out.2 Hrun).
Defined.

(** X9, run: a request with one tool round, in a new process. *)
Lemma loop_uses_only_the_registry_client_witness :
  let out := ChatRoute.POST one_round cfg 10 Scenarios.list_my_services boot in
  ∃ evs, log out.2 = log Scenarios.connected ++ evs
         ∧ Forall (ServerExtras.loop_event 0) evs
         ∧ mcpClient out.2 = Some 0.
Proof.
  intros out.
  destruct (ServerExtras.loop_uses_only_the_registry_client one_round cfg 10
              Scenarios.list_my_services boot Scenarios.connected 0 1 out.1 out.2)
    as (evs & Hlog & Hev & Hc & _); [vm_compute; reflexivity..|].
  exists evs. split_and!; [exact Hlog | exact Hev | exact Hc].
Defined.

(** X10, run. *)
Lemma every_request_offers_the_listed_tools_witness :
  let out := ChatRoute.POST one_round cfg 10 Scenarios.list_my_services boot in
  ∃ evs, log out.2 = log boot ++ evs
         ∧ ∀ rq, rq ∈ requests_of evs →
             schema_function_name <$> req_tools rq
             = ["list_services"; "acknowledge_incident"].
Proof.
  intros out.
  destruct (ServerExtras.every_request_offers_the_listed_tools one_round cfg 10
              Scenarios.list_my_services boot Scenarios.connected 0 1
              [list_services; acknowledge_incident] out.1 out.2)
    as (evs & Hlog & Hall); [vm_compute; reflexivity..|].
  exists evs. split; [exact Hlog|]. intros rq Hin.
  destruct (Hall rq Hin) as (_ & _ & Hnames & _). exact Hnames.
Defined.

(** X11, run. *)
Lemma history_is_replayed_and_grows_witness :
  let out := ChatRoute.POST one_round cfg 10 Scenarios.list_my_services boot in
  ∃ evs, log out.2 = log boot ++ evs
         ∧ ∀ rq, head (requests_of evs) = Some rq →
             req_messages rq = [from_user "list my services"].
Proof.
  intros out.
  destruct (ServerExtras.history_is_replayed_and_grows one_round cfg 10
              Scenarios.list_my_services boot out.1 out.2)
    as (evs & Hlog & Hhead & _); [vm_compute; reflexivity|].
  exists evs. split; [exact Hlog | exact Hhead].
Defined.

End ServerRuns.

(** * The chat surface as a session *)

(** The component [Home] of [page.tsx] between renders: the handlers the
    JSX of lines 99-113 attaches, run on the state of the latest render.
    Events are taken at the handlers: a change or a key press while the
    input is shown disabled, or a click on the disabled button, is
    allowed here although a browser does not deliver it. *)
Module ChatSession.
Import ChatSurface.

Inductive UiEvent : Type :=
| Change (value : string)
| KeyDown (key : string)
| Click
| Settles (reply : Reply).

(** The state of the component, the continuations of the requests that
    have not settled (oldest first), and the requests issued so far. *)
Record Session : Type := mkSession {
  ui : Surface;
  in_flight : list (Reply → Surface → Surface);
  sent : list FetchCall
}.

Definition start : Session := mkSession (mkSurface [] "" false) [] [].

(** Line 109: [disabled={isLoading || !input.trim()}]. *)
Definition button_disabled (trim : string → string) (s : Surface) : bool :=
  isLoading s || bool_decide (trim (input s) = "").

Section Session.
Context (trim : string → string).

(** A call of [sendMessage] from the latest render. *)
Definition submit (st : Session) : Session :=
  match sendMessage trim (ui st) (ui st) with
  | (ui', None) => mkSession ui' (in_flight st) (sent st)
  | (ui', Some (call, resume)) =>
      mkSession ui' (in_flight st ++ [resume]) (sent st ++ [call])
  end.

Definition step (st : Session) (ev : UiEvent) : Session :=
  match ev with
  | Change value =>
      (* line 101: onChange={(e) => setInput(e.target.value)} *)
      mkSession (setInput value (ui st)) (in_flight st) (sent st)
  | KeyDown key =>
      (* line 102: e.key === "Enter" && sendMessage() *)
      if bool_decide (key = "Enter") then submit st else st
  | Click =>
      (* line 108: onClick={sendMessage} *)
      submit st
  | Settles reply =>
      match in_flight st with
      | resume :: rest => mkSession (resume reply (ui st)) rest (sent st)
      | [] => st
      end
  end.

Definition run_from (st : Session) (evs : list UiEvent) : Session :=
  foldl step st evs.

Definition run (evs : list UiEvent) : Session := run_from start evs.

End Session.

#[global] Instance UiRole_eq_dec : EqDecision UiRole.
Proof. solve_decision. Defined.

(** [n] exchanges: a user message and the assistant message after it. *)
Fixpoint turns (n : nat) : list UiRole :=
  match n with
  | 0 => []
  | S n => ui_user :: ui_assistant :: turns n
  end.

End ChatSession.

Module SessionFacts.
Import ChatSurface ChatSession.

Section SessionFacts.
Context (trim : string → string).
Local Open Scope nat_scope.

Lemma turns_S_r (n : nat) : turns (S n) = turns n ++ [ui_user; ui_assistant].
Proof. induction n as [|n IH]; [done|]. simpl in *. by rewrite IH. Qed.

Lemma turns_length (n : nat) : length (turns n) = 2 * n.
Proof. induction n as [|n IH]; [done|]. simpl in *. lia. Qed.

(** What the rest of [sendMessage] does when its request settles. *)
Definition settles (resume : Reply → Surface → Surface) : Prop :=
  ∀ reply ui',
    ∃ answer,
      role answer = ui_assistant
      ∧ resume reply ui' = mkSurface (messages ui' ++ [answer]) (input ui') false.

Lemma sendMessage_ignored (s : Surface) :
  button_disabled trim s = true → sendMessage trim s s = (s, None).
Proof.
  unfold button_disabled, sendMessage.
  intros [H|H]%orb_true_iff; rewrite H; [by rewrite orb_true_r|done].
Qed.

Lemma sendMessage_sent (s : Surface) :
  button_disabled trim s = false →
  ∃ resume,
    sendMessage trim s s
    = (mkSurface (messages s ++ [mkChatMessage ui_user (Some (input s))]) "" true,
       Some (mkFetch "/api/chat" "POST"
               (messages s ++ [mkChatMessage ui_user (Some (input s))]),
             resume))
    ∧ settles resume.
Proof.
  unfold button_disabled, sendMessage.
  intros [H1 H2]%orb_false_iff. rewrite H1, H2. simpl.
  eexists. split; [done|]. intros reply ui'.
  exists (mkChatMessage ui_assistant
            match reply with
            | Data data_content => data_content
            | _ => Some error_text
            end).
  by destruct reply.
Qed.

(** What holds between any two events. *)
Record consistent (st : Session) : Prop := mkConsistent {
  flight_settles : Forall settles (in_flight st);
  flight_count : length (in_flight st) = if isLoading (ui st) then 1 else 0;
  flight_sent : length (in_flight st) ≤ length (sent st);
  roles_turns :
    role <$> messages (ui st)
    = turns (length (sent st) - length (in_flight st))
      ++ (if isLoading (ui st) then [ui_user] else []);
  sent_bodies :
    ∀ i call, sent st !! i = Some call →
      call = mkFetch "/api/chat" "POST" (take (2 * i + 1) (messages (ui st)))
}.

Lemma consistent_length (st : Session) :
  consistent st →
  length (messages (ui st)) + length (in_flight st) = 2 * length (sent st).
Proof.
  intros [_ Hcount Hle Hroles _].
  apply (f_equal length) in Hroles.
  rewrite length_fmap, length_app, turns_length in Hroles.
  destruct (isLoading (ui st)); simpl in Hroles; lia.
Qed.

Lemma consistent_start : consistent start.
Proof. by split. Qed.

Lemma consistent_submit (st : Session) : consistent st → consistent (submit trim st).
Proof.
  intros Hst. pose proof (consistent_length st Hst) as Hlen.
  destruct Hst as [Hsettles Hcount Hle Hroles Hsent].
  unfold submit.
  destruct (button_disabled trim (ui st)) eqn:Hb.
  { rewrite sendMessage_ignored by done. by split. }
  destruct (sendMessage_sent (ui st) Hb) as (resume & -> & Hresume).
  apply orb_false_iff in Hb as [Hload _]. rewrite Hload in Hcount, Hroles.
  apply length_zero_iff_nil in Hcount as Hnil.
  rewrite Hnil in *. simpl in Hlen.
  split; simpl.
  - by repeat constructor.
  - done.
  - rewrite length_app. simpl. lia.
  - rewrite fmap_app, Hroles, !length_app. simpl.
    rewrite app_nil_r. do 2 f_equal. lia.
  - intros i call Hi.
    apply lookup_app_Some in Hi as [Hi|[Hge Hi]].
    + rewrite (Hsent i call Hi). f_equal.
      apply lookup_lt_Some in Hi. rewrite take_app_le by lia. done.
    + apply list_lookup_singleton_Some in Hi as [Hi <-].
      f_equal. rewrite take_ge; [done|]. rewrite length_app. simpl. lia.
Qed.

Lemma consistent_step (st : Session) (ev : UiEvent) :
  consistent st → consistent (step trim st ev).
Proof.
  intros Hst. destruct ev as [value|key| |reply]; simpl.
  - by destruct Hst.
  - case_bool_decide; [by apply consistent_submit|done].
  - by apply consistent_submit.
  - pose proof (consistent_length st Hst) as Hlen.
    destruct Hst as [Hsettles Hcount Hle Hroles Hsent].
    destruct (in_flight st) as [|resume rest] eqn:Hfl; [by split; rewrite ?Hfl|].
    apply Forall_cons in Hsettles as [Hresume Hrest].
    destruct (Hresume reply (ui st)) as (answer & Hrole & ->).
    destruct (isLoading (ui st)); [|done].
    simpl in Hcount. injection Hcount as Hcount.
    apply length_zero_iff_nil in Hcount as ->. simpl in *.
    split; simpl.
    + done.
    + done.
    + lia.
    + rewrite fmap_app, Hroles, Nat.sub_0_r. simpl. rewrite Hrole.
      destruct (length (sent st)) as [|n]; [lia|].
      rewrite turns_S_r, app_nil_r, <-app_assoc. simpl.
      by rewrite Nat.sub_0_r.
    + intros i call Hi. rewrite (Hsent i call Hi). f_equal.
      apply lookup_lt_Some in Hi. rewrite take_app_le by lia. done.
Qed.

Lemma consistent_run_from (st : Session) (evs : list UiEvent) :
  consistent st → consistent (run_from trim st evs).
Proof.
  revert st. induction evs as [|ev evs IH]; intros st Hst; [done|].
  simpl. by apply IH, consistent_step.
Qed.

Lemma consistent_run (evs : list UiEvent) : consistent (run trim evs).
Proof. apply consistent_run_from, consistent_start. Qed.

Lemma step_appends (st : Session) (ev : UiEvent) :
  consistent st →
  ∃ more, messages (ui (step trim st ev)) = messages (ui st) ++ more
          ∧ length more ≤ 1.
Proof.
  intros Hst.
  assert (Hsubmit : ∃ more, messages (ui (submit trim st)) = messages (ui st) ++ more
                            ∧ length more ≤ 1).
  { unfold submit. destruct (button_disabled trim (ui st)) eqn:Hb.
    - rewrite sendMessage_ignored by done. exists []. split; [by rewrite app_nil_r|simpl; lia].
    - destruct (sendMessage_sent (ui st) Hb) as (resume & -> & _).
      eexists [_]. split; [done|simpl; lia]. }
  destruct ev as [value|key| |reply]; simpl.
  - exists []. split; [by rewrite app_nil_r|simpl; lia].
  - case_bool_decide; [done|]. exists []. split; [by rewrite app_nil_r|simpl; lia].
  - done.
  - destruct (in_flight st) as [|resume rest] eqn:Hfl.
    { exists []. split; [by rewrite app_nil_r|simpl; lia]. }
    pose proof (flight_settles st Hst) as Hsettles. rewrite Hfl in Hsettles.
    apply Forall_cons in Hsettles as [Hresume _].
    destruct (Hresume reply (ui st)) as (answer & _ & ->).
    exists [answer]. split; [done|simpl; lia].
Qed.

(** X12 (one request in flight, one answer per question).  Whatever the
    user does and however the requests end, between any two events the
    loading flag is set exactly when one request is in flight, and there
    is never a second one; the visible history is a sequence of
    exchanges, a user message followed by an assistant message, followed
    by one more user message exactly while loading; and the number of
    requests issued so far equals the number of user messages shown. *)
Theorem one_request_in_flight (evs : list UiEvent) :
  let st := run trim evs in
  length (in_flight st) = (if isLoading (ui st) then 1 else 0)
  ∧ ∃ n,
      role <$> messages (ui st)
      = turns n ++ (if isLoading (ui st) then [ui_user] else [])
      ∧ length (sent st) = n + length (in_flight st)
      ∧ length (filter (λ m, role m = ui_user) (messages (ui st)))
        = length (sent st).
Proof.
  intros st. destruct (consistent_run evs) as [_ Hcount Hle Hroles _].
  fold st in Hcount, Hle, Hroles. split; [done|].
  exists (length (sent st) - length (in_flight st)). split_and!; [done|lia|].
  assert (Hfilter : ∀ ms, length (filter (λ m, role m = ui_user) ms)
                          = length (filter (λ r, r = ui_user) (role <$> ms))).
  { clear. induction ms as [|m ms IH]; [done|].
    rewrite fmap_cons, !filter_cons. repeat case_decide; simpl; congruence. }
  rewrite Hfilter, Hroles, filter_app, length_app.
  assert (Hturns : ∀ n, length (filter (λ r, r = ui_user) (turns n)) = n).
  { clear. induction n as [|n IH]; [done|]. cbn [turns].
    rewrite filter_cons_True by done. rewrite filter_cons_False by done.
    simpl. by rewrite IH. }
  rewrite Hturns. destruct (isLoading (ui st)); simpl in *; lia.
Qed.

(** X13 (every request replays the visible history).  The request number
    [i] of a session (counting from 0) is a [POST] to [/api/chat] whose
    body is the first [2 i + 1] messages of the history as it is shown
    at any later moment: all earlier exchanges, including those that
    ended in the error text, and the user message just submitted. *)
Theorem requests_replay_visible_history (evs : list UiEvent) (i : nat)
    (call : FetchCall) :
  sent (run trim evs) !! i = Some call →
  call = mkFetch "/api/chat" "POST"
           (take (2 * i + 1) (messages (ui (run trim evs))))
  ∧ length (fetch_body call) = 2 * i + 1.
Proof.
  intros Hi. pose proof (consistent_run evs) as Hst.
  pose proof (consistent_length _ Hst) as Hlen.
  pose proof (flight_sent _ Hst) as Hle.
  rewrite (sent_bodies _ Hst i call Hi). split; [done|]. simpl.
  apply lookup_lt_Some in Hi. rewrite length_take.
  pose proof (flight_count _ Hst) as Hcount.
  destruct (isLoading (ui (run trim evs))); lia.
Qed.

(** X14 (the visible history only grows).  No event removes or rewrites
    a displayed message: the history after any events is a prefix of the
    history after any further events, and one event adds at most one
    message. *)
Theorem visible_history_only_grows (evs more : list UiEvent) :
  messages (ui (run trim evs)) `prefix_of` messages (ui (run trim (evs ++ more)))
  ∧ length (messages (ui (run trim (evs ++ more))))
    ≤ length (messages (ui (run trim evs))) + length more.
Proof.
  unfold run, run_from. rewrite foldl_app.
  pose proof (consistent_run evs) as Hst. unfold run, run_from in Hst.
  revert Hst. generalize (foldl (step trim) start evs). intros st Hst.
  revert st Hst. induction more as [|ev more IH]; intros st Hst.
  { simpl. split; [done|lia]. }
  simpl. destruct (step_appends st ev Hst) as (added & Hadd & Hlen).
  destruct (IH (step trim st ev) (consistent_step st ev Hst)) as [Hpre Hle].
  split.
  - etrans; [|exact Hpre]. rewrite Hadd. by apply prefix_app_r.
  - rewrite Hadd, length_app in Hle. lia.
Qed.

(** X15 (the button tells the truth).  Between any two events of a
    session, the send button is shown disabled exactly when a click, or
    Enter in the input, would change nothing; otherwise the click issues
    a request and empties the input. *)
Theorem disabled_button_means_ignored (evs : list UiEvent) :
  let st := run trim evs in
  (button_disabled trim (ui st) = true
   → step trim st Click = st ∧ step trim st (KeyDown "Enter") = st)
  ∧ (button_disabled trim (ui st) = false
     → length (sent (step trim st Click)) = S (length (sent st))
       ∧ input (ui (step trim st Click)) = ""
       ∧ step trim st (KeyDown "Enter") = step trim st Click).
Proof.
  intros st. split; intros Hb; simpl; unfold submit.
  - rewrite sendMessage_ignored by done. by destruct st.
  - destruct (sendMessage_sent (ui st) Hb) as (resume & -> & _). simpl.
    rewrite length_app. simpl. split_and!; [lia|done..].
Qed.

End SessionFacts.
End SessionFacts.

Module SessionRuns.
Import ChatSurface ChatSession.

(** X13, run: a first exchange fails, a second message is sent with
    Enter. *)
Lemma requests_replay_visible_history_witness :
  let evs := [Change "hi"; Click; Settles FetchRejects;
              Change "again"; KeyDown "Enter"] in
  sent (run ascii_trim evs) !! 1
  = Some (mkFetch "/api/chat" "POST"
            [mkChatMessage ui_user (Some "hi");
             mkChatMessage ui_assistant (Some error_text);
             mkChatMessage ui_user (Some "again")])
  ∧ messages (ui (run ascii_trim evs))
    = [mkChatMessage ui_user (Some "hi");
       mkChatMessage ui_assistant (Some error_text);
       mkChatMessage ui_user (Some "again")].
Proof.
  intros evs.
  destruct (SessionFacts.requests_replay_visible_history ascii_trim evs 1
              (mkFetch "/api/chat" "POST"
                 [mkChatMessage ui_user (Some "hi");
                  mkChatMessage ui_assistant (Some error_text);
                  mkChatMessage ui_user (Some "again")]))
    as [Hcall _]; [vm_compute; reflexivity|].
  split; vm_compute; reflexivity.
Defined.

End SessionRuns.

(** * The incident dashboard

    The repository also holds three modules of a dashboard front end:
    the HTTP helper [src/api.js], the incident dialog
    [src/IncidentDetailModal.jsx] and the application shell
    [src/modifiedjsx.jsx].  Their state is React state and browser
    storage; a value read from a response body is a [JSON] value, and
    [None] stands for [undefined]. *)

Module JsValue.

(** [ToBoolean]. *)
Definition truthy (v : option JSON) : bool :=
  match v with
  | None | Some JNull => false
  | Some (JBool b) => b
  | Some (JNumber n) => negb (n =? 0)%Z
  | Some (JString s) => negb (bool_decide (s = ""))
  | Some (JArray _) | Some (JObject _) => true
  end.

(** The value of the own property [key] of a parsed object: of two
    members with the same name the later one counts. *)
Definition field (key : string) (fields : list (string * JSON)) : option JSON :=
  snd <$> last (filter (λ kv, kv.1 = key) fields).

(** [v.key] for the property names the dashboard reads ([detail],
    [alerts], ...): reading from [null] throws, an object gives its member
    or [undefined], and every other value gives [undefined]. *)
Definition read (v : JSON) (key : string) : Outcome (option JSON) :=
  match v with
  | JNull =>
      Raised (mkError "TypeError"
                ("Cannot read properties of null (reading '" +:+ key +:+ "')"))
  | JObject fields => Value (field key fields)
  | _ => Value None
  end.

(** [a || b], where [a] is a property read. *)
Definition or_else (a : Outcome (option JSON)) (b : JSON) : Outcome JSON :=
  match a with
  | Raised e => Raised e
  | Value v => Value (if truthy v then default JNull v else b)
  end.

End JsValue.

(** ** [src/api.js] *)

Module Api.
Import JsValue.

(** What the code reads of a [Response]: [ok], [status], and the promise
    of [json()]. *)
Record HttpResponse : Type := mkHttpResponse {
  ok : bool;
  status : Z;
  json : Outcome JSON
}.

Section Api.
(** [String(v)] for a value that is not a string: for an array or an
    object it runs their conversion methods, and may throw. *)
Context (ToString : JSON → Outcome string).

(** The message of [new Error(v)]. *)
Definition message_of (v : JSON) : Outcome string :=
  match v with
  | JString s => Value s
  | _ => ToString v
  end.

(** Line 10: [error.detail || error.error || error.message ||
    `HTTP ${response.status}`]. *)
Definition error_reason (error : JSON) (status : Z) : Outcome JSON :=
  match read error "detail" with
  | Raised e => Raised e
  | Value detail =>
      if truthy detail then Value (default JNull detail)
      else
        match read error "error" with
        | Raised e => Raised e
        | Value err =>
            if truthy err then Value (default JNull err)
            else
              match read error "message" with
              | Raised e => Raised e
              | Value message =>
                  if truthy message then Value (default JNull message)
                  else Value (JString ("HTTP " +:+ pretty status))
              end
        end
  end.

(** [handleResponse], lines 7-13: the promise it returns resolves with a
    value or rejects with an error. *)
Definition handleResponse (response : HttpResponse) : Outcome JSON :=
  if negb (ok response) then
    let error :=
      match json response with
      | Value body => body
      | Raised _ => JObject [("error", JString "Unknown error")]
      end in
    match error_reason error (status response) with
    | Raised e => Raised e
    | Value reason =>
        match message_of reason with
        | Raised e => Raised e
        | Value text => Raised (mkError "Error" text)
        end
    end
  else json response.

End Api.
End Api.

(** ** [src/IncidentDetailModal.jsx] *)

Module IncidentDetail.
Import JsValue.

(** The React state of the dialog, lines 39-51. *)
Record Modal : Type := mkModal {
  incident : JSON;
  alerts : JSON;
  notes : JSON;
  logEntries : JSON;
  relatedIncidents : JSON;
  pastIncidents : JSON;
  loading : bool;
  activeTab : string;
  newNote : string;
  addingNote : bool;
  actionLoading : option string;
  expandedAlerts : gmap string bool
}.

Definition initial : Modal :=
  mkModal JNull (JArray []) (JArray []) (JArray []) (JArray []) (JArray [])
          true "details" "" false None ∅.

Definition setIncident (v : JSON) (m : Modal) : Modal :=
  mkModal v (alerts m) (notes m) (logEntries m) (relatedIncidents m)
          (pastIncidents m) (loading m) (activeTab m) (newNote m) (addingNote m)
          (actionLoading m) (expandedAlerts m).

Definition setAlerts (v : JSON) (m : Modal) : Modal :=
  mkModal (incident m) v (notes m) (logEntries m) (relatedIncidents m)
          (pastIncidents m) (loading m) (activeTab m) (newNote m) (addingNote m)
          (actionLoading m) (expandedAlerts m).

Definition setNotes (v : JSON) (m : Modal) : Modal :=
  mkModal (incident m) (alerts m) v (logEntries m) (relatedIncidents m)
          (pastIncidents m) (loading m) (activeTab m) (newNote m) (addingNote m)
          (actionLoading m) (expandedAlerts m).

Definition setLogEntries (v : JSON) (m : Modal) : Modal :=
  mkModal (incident m) (alerts m) (notes m) v (relatedIncidents m)
          (pastIncidents m) (loading m) (activeTab m) (newNote m) (addingNote m)
          (actionLoading m) (expandedAlerts m).

Definition setRelatedIncidents (v : JSON) (m : Modal) : Modal :=
  mkModal (incident m) (alerts m) (notes m) (logEntries m) v
          (pastIncidents m) (loading m) (activeTab m) (newNote m) (addingNote m)
          (actionLoading m) (expandedAlerts m).

Definition setPastIncidents (v : JSON) (m : Modal) : Modal :=
  mkModal (incident m) (alerts m) (notes m) (logEntries m) (relatedIncidents m)
          v (loading m) (activeTab m) (newNote m) (addingNote m)
          (actionLoading m) (expandedAlerts m).

Definition setLoading (b : bool) (m : Modal) : Modal :=
  mkModal (incident m) (alerts m) (notes m) (logEntries m) (relatedIncidents m)
          (pastIncidents m) b (activeTab m) (newNote m) (addingNote m)
          (actionLoading m) (expandedAlerts m).

Definition setExpandedAlerts (f : gmap string bool → gmap string bool)
    (m : Modal) : Modal :=
  mkModal (incident m) (alerts m) (notes m) (logEntries m) (relatedIncidents m)
          (pastIncidents m) (loading m) (activeTab m) (newNote m) (addingNote m)
          (actionLoading m) (f (expandedAlerts m)).

(** A stretch of the [try] block: the state it leaves, and the error it
    threw, if any. *)
Definition Block : Type := Modal → Modal * option JsError.

Definition skip : Block := λ m, (m, None).

Definition seq (a b : Block) : Block :=
  λ m, match a m with
       | (m1, None) => b m1
       | (m1, Some e) => (m1, Some e)
       end.

(** [setter(v)], where evaluating [v] may throw. *)
Definition assign (v : Outcome JSON) (setter : JSON → Modal → Modal) : Block :=
  λ m, match v with
       | Value x => (setter x m, None)
       | Raised e => (m, Some e)
       end.

(** [if (settled.status === 'fulfilled') { ... settled.value ... }] *)
Definition when_fulfilled (settled : Outcome JSON) (body : JSON → Block) : Block :=
  match settled with
  | Value value => body value
  | Raised _ => skip
  end.

(** Lines 68-82, the [try] block after the [await]. *)
Definition apply_results (incidentData relatedData pastData : Outcome JSON) : Block :=
  seq (when_fulfilled incidentData (λ data,
         seq (assign (or_else (read data "incident") data) setIncident)
        (seq (assign (or_else (read data "alerts") (JArray [])) setAlerts)
        (seq (assign (or_else (read data "notes") (JArray [])) setNotes)
             (assign (or_else (read data "log_entries") (JArray [])) setLogEntries)))))
 (seq (when_fulfilled relatedData (λ value,
         assign (or_else (read value "related_incidents") (JArray []))
                setRelatedIncidents))
      (when_fulfilled pastData (λ value,
         assign (or_else (read value "past_incidents") (JArray []))
                setPastIncidents))).

(** [loadIncidentData], lines 59-88.  It runs up to its [await]; the
    second component is the rest of the function, which is given what
    the three requests settled with and runs on the state of that
    moment.  The [catch] logs the error and the [finally] clears
    [loading]. *)
Definition loadIncidentData (m : Modal)
    : Modal * (Outcome JSON → Outcome JSON → Outcome JSON → Modal → Modal) :=
  (setLoading true m,
   λ incidentData relatedData pastData m,
     setLoading false (apply_results incidentData relatedData pastData m).1).

(** [expandedAlerts] is a plain object: besides the properties the
    dialog has written, a read sees the members of [Object.prototype]. *)
Definition Object_prototype_members : list string :=
  ["constructor"; "hasOwnProperty"; "isPrototypeOf"; "propertyIsEnumerable";
   "toLocaleString"; "toString"; "valueOf"; "__proto__";
   "__defineGetter__"; "__defineSetter__";
   "__lookupGetter__"; "__lookupSetter__"].

(** What [object[key]] finds: a property of the object itself, a member
    inherited from [Object.prototype] (a function, or the prototype
    object for [__proto__]), or nothing ([undefined]). *)
Inductive Member : Type :=
| Own (value : bool)
| Inherited
| Absent.

Definition member (object : gmap string bool) (key : string) : Member :=
  match object !! key with
  | Some value => Own value
  | None =>
      if bool_decide (key ∈ Object_prototype_members) then Inherited else Absent
  end.

(** [ToBoolean]: functions and objects are truthy. *)
Definition member_truthy (v : Member) : bool :=
  match v with
  | Own value => value
  | Inherited => true
  | Absent => false
  end.

(** [toggleAlertExpanded], lines 128-130:
    [{ ...prev, [alertId]: !prev[alertId] }]. *)
Definition toggleAlertExpanded (alertId : string) (m : Modal) : Modal :=
  setExpandedAlerts
    (λ prev, <[alertId := negb (member_truthy (member prev alertId))]> prev) m.

(** Line 464: [expandedAlerts[alert.id] !== false]. *)
Definition isExpanded (m : Modal) (alert_id : string) : bool :=
  match member (expandedAlerts m) alert_id with
  | Own false => false
  | _ => true
  end.

(** The headers of these alerts are clicked, one after the other. *)
Definition clicked (ids : list string) (m : Modal) : Modal :=
  foldl (λ m id, toggleAlertExpanded id m) m ids.

End IncidentDetail.

(** ** [src/modifiedjsx.jsx] *)

Module AppShell.

(** [localStorage] and [sessionStorage]. *)
Record Browser : Type := mkBrowser {
  localStorage : gmap string string;
  sessionStorage : gmap string string
}.

(** [getItem] gives [null] for a missing key. *)
Definition getItem (storage : gmap string string) (key : string) : option string :=
  storage !! key.

Definition removeItem (key : string) (storage : gmap string string)
    : gmap string string :=
  delete key storage.

(** [a || b] on what [getItem] gives: [null] and the empty string are
    falsy. *)
Definition or_string (a : option string) (b : string) : string :=
  match a with
  | Some s => if bool_decide (s = "") then b else s
  | None => b
  end.

(** Lines 27-30. *)
Definition checkAuth (b : Browser) : bool :=
  bool_decide (getItem (localStorage b) "aiops_authenticated" = Some "true")
  || bool_decide (getItem (sessionStorage b) "aiops_authenticated" = Some "true").

(** Lines 33-37. *)
Definition getUser (b : Browser) : string :=
  or_string (getItem (localStorage b) "aiops_user")
            (or_string (getItem (sessionStorage b) "aiops_user") "User").

(** The state of [App], lines 234-235. *)
Record AppState : Type := mkApp { isAuthenticated : bool; user : string }.

(** [App] is mounted: the initial values of its state. *)
Definition mount (b : Browser) : AppState :=
  mkApp (checkAuth b) (getUser b).

(** Lines 237-240. *)
Definition handleLogin (username : string) (st : AppState) : AppState :=
  mkApp true username.

(** Lines 242-255, up to the navigation. *)
Definition handleLogout (b : Browser) (st : AppState) : Browser * AppState :=
  let l := removeItem "aiops_user" (removeItem "aiops_authenticated" (localStorage b)) in
  let s := removeItem "aiops_user" (removeItem "aiops_authenticated" (sessionStorage b)) in
  (mkBrowser l s, mkApp false "").

(** Line 254 assigns [window.location.href]: the page is loaded again
    and [App] mounted on the storage as it is then. *)
Definition logout_and_reload (b : Browser) (st : AppState) : Browser * AppState :=
  let b' := (handleLogout b st).1 in (b', mount b').

End AppShell.

(** ** Properties of the dashboard modules *)

Module ApiFacts.
Import JsValue Api.

Section ApiFacts.
Context (ToString : JSON → Outcome string).

(** X16 (an error status never resolves).  For a response whose [ok] is
    false the promise of [handleResponse] rejects, whatever the body.
    When the body cannot be read as JSON the error message is
    ["Unknown error"], and neither the status code nor the reason the
    body could not be read is reported; a body that is JSON [null] gives
    a [TypeError]; an object whose [detail] is a non-empty string gives
    that string, whatever else it holds; and the message is
    [HTTP <status>] for an object without [detail], [error] and
    [message]. *)
Theorem error_status_never_resolves (response : HttpResponse) :
  ok response = false →
  (∃ e, handleResponse ToString response = Raised e)
  ∧ (∀ e0, json response = Raised e0 →
       handleResponse ToString response = Raised (mkError "Error" "Unknown error"))
  ∧ (json response = Value JNull →
       ∃ e, handleResponse ToString response = Raised e
            ∧ err_name e = "TypeError")
  ∧ (∀ fields d,
       json response = Value (JObject fields) →
       field "detail" fields = Some (JString d) → d ≠ "" →
       handleResponse ToString response = Raised (mkError "Error" d))
  ∧ (∀ fields,
       json response = Value (JObject fields) →
       field "detail" fields = None → field "error" fields = None →
       field "message" fields = None →
       handleResponse ToString response
       = Raised (mkError "Error" ("HTTP " +:+ pretty (status response)))).
Proof.
  intros Hok. unfold handleResponse. rewrite Hok. simpl. split_and!.
  - destruct (error_reason _ _) as [reason|e]; [|by eexists].
    destruct (message_of ToString reason); by eexists.
  - by intros e0 ->.
  - intros ->. by eexists.
  - intros fields d -> Hd Hne. unfold error_reason. simpl. rewrite Hd. simpl.
    by rewrite bool_decide_eq_false_2.
  - intros fields -> H1 H2 H3. unfold error_reason. simpl.
    by rewrite H1, H2, H3.
Qed.

(** With [ok] set, the promise is the one of [response.json()]. *)
Lemma ok_response_is_its_body (response : HttpResponse) :
  ok response = true → handleResponse ToString response = json response.
Proof. intros H. unfold handleResponse. by rewrite H. Qed.

End ApiFacts.

(** The conversion of a plain object, which is all the run below could
    ask for. *)
Definition object_ToString (v : JSON) : Outcome string :=
  Value "[object Object]".

(** X16, run: a gateway answers 502 with an HTML page. *)
Lemma error_status_never_resolves_witness :
  handleResponse object_ToString
    (mkHttpResponse false 502 (Raised (JsonText.syntax_error "<html>")))
  = Raised (mkError "Error" "Unknown error").
Proof.
  destruct (error_status_never_resolves object_ToString
              (mkHttpResponse false 502 (Raised (JsonText.syntax_error "<html>"))))
    as (_ & H & _); [reflexivity|].
  apply (H (JsonText.syntax_error "<html>")). reflexivity.
Defined.

End ApiFacts.

Module IncidentDetailFacts.
Import JsValue IncidentDetail.

Local Open Scope nat_scope.

Lemma member_insert_eq (object : gmap string bool) (key : string) (v : bool) :
  member (<[key := v]> object) key = Own v.
Proof. unfold member. by rewrite lookup_insert_eq. Qed.

Lemma member_insert_ne (object : gmap string bool) (key key' : string)
    (v : bool) :
  key ≠ key' → member (<[key := v]> object) key' = member object key'.
Proof. intros H. unfold member. by rewrite lookup_insert_ne. Qed.

(** The property of [id] itself after the clicks, once there were any. *)
Lemma clicked_expanded (id : string) (ids : list string) :
  ∀ m,
    expandedAlerts (clicked ids m) !! id
    = if decide (length (filter (λ x, x = id) ids) = 0)
      then expandedAlerts m !! id
      else Some (xorb (Nat.odd (length (filter (λ x, x = id) ids)))
                      (member_truthy (member (expandedAlerts m) id))).
Proof.
  induction ids as [|x ids IH]; intros m; [done|].
  change (clicked (x :: ids) m) with (clicked ids (toggleAlertExpanded x m)).
  rewrite IH. simpl expandedAlerts.
  rewrite filter_cons. destruct (decide (x = id)) as [->|Hne].
  - rewrite lookup_insert_eq, member_insert_eq. cbn [length member_truthy].
    set (n := length (filter (λ x, x = id) ids)).
    rewrite (decide_False (P := S n = 0)) by lia.
    destruct (decide (n = 0)) as [Hn|Hn]; [by rewrite Hn|].
    rewrite Nat.odd_succ, <-Nat.negb_odd.
    by destruct (Nat.odd n), (member_truthy (member (expandedAlerts m) id)).
  - by rewrite lookup_insert_ne, member_insert_ne.
Qed.

(** X17 (when an alert is shown expanded).  Take an alert whose header
    has not been clicked since the dialog was opened, and [n] clicks on
    its header, in any order with clicks on other alerts, which do not
    count.  It is shown expanded at first.  When its id is not the name
    of a member of [Object.prototype], the first click leaves it
    expanded and every click after that flips it: it is expanded exactly
    when [n] is zero or odd.  When its id is such a name (["constructor"],
    ["toString"], ...), the inherited member makes the first click
    collapse it: it is expanded exactly when [n] is even. *)
Theorem alert_expansion_after_clicks (m : Modal) (id : string)
    (ids : list string) :
  expandedAlerts m !! id = None →
  let n := length (filter (λ x, x = id) ids) in
  isExpanded (clicked ids m) id
  = if bool_decide (id ∈ Object_prototype_members) then Nat.even n
    else bool_decide (n = 0 ∨ Nat.odd n = true).
Proof.
  intros Hnew n. unfold isExpanded, member at 1. rewrite clicked_expanded. fold n.
  unfold member. rewrite Hnew.
  destruct (decide (n = 0)) as [Hn|Hn].
  - rewrite Hn. simpl.
    by destruct (bool_decide (id ∈ Object_prototype_members)).
  - rewrite <-Nat.negb_odd.
    destruct (bool_decide (id ∈ Object_prototype_members)); simpl.
    + by destruct (Nat.odd n).
    + rewrite xorb_false_r. destruct (Nat.odd n) eqn:Hodd.
      * symmetry. apply bool_decide_eq_true_2. by right.
      * symmetry. apply bool_decide_eq_false_2. by intros [?|?].
Qed.

(** X17, run: alert [A1] is clicked once, then [A2], then [A1] again; an
    alert whose id is [constructor] is clicked once. *)
Lemma alert_expansion_after_clicks_witness :
  isExpanded (clicked ["A1"] initial) "A1" = true
  ∧ isExpanded (clicked ["A1"; "A2"; "A1"] initial) "A1" = false
  ∧ isExpanded (clicked ["constructor"] initial) "constructor" = false.
Proof.
  split_and!.
  - apply (alert_expansion_after_clicks initial "A1" ["A1"]). reflexivity.
  - apply (alert_expansion_after_clicks initial "A1" ["A1"; "A2"; "A1"]).
    reflexivity.
  - apply (alert_expansion_after_clicks initial "constructor" ["constructor"]).
    reflexivity.
Defined.

(** X18 (a failed reload keeps what is shown).  [loadIncidentData] sets
    [loading] before it waits and clears it when it is done, whatever the
    three requests settled with; no error leaves it.  The part of the
    state that belongs to a request that was rejected is left as it was,
    so older data stays on screen; what the user typed and expanded is
    never touched.  A fulfilled incident request sets the incident to
    [data.incident], or to the whole body when that is missing, and the
    alerts to [data.alerts] or the empty list.  When the body of the
    incident request is [null], reading it throws inside the [try]:
    nothing is updated, not even from the two other requests. *)
Theorem failed_reload_keeps_what_is_shown (m0 m : Modal)
    (incidentData relatedData pastData : Outcome JSON) :
  let m' := (loadIncidentData m0).2 incidentData relatedData pastData m in
  loading (loadIncidentData m0).1 = true
  ∧ loading m' = false
  ∧ (newNote m' = newNote m ∧ addingNote m' = addingNote m
     ∧ actionLoading m' = actionLoading m
     ∧ expandedAlerts m' = expandedAlerts m ∧ activeTab m' = activeTab m)
  ∧ ((∃ e, incidentData = Raised e) →
       incident m' = incident m ∧ alerts m' = alerts m
       ∧ notes m' = notes m ∧ logEntries m' = logEntries m)
  ∧ ((∃ e, relatedData = Raised e) → relatedIncidents m' = relatedIncidents m)
  ∧ ((∃ e, pastData = Raised e) → pastIncidents m' = pastIncidents m)
  ∧ (∀ data, incidentData = Value data → data ≠ JNull →
       ∃ inc al,
         read data "incident" = Value inc ∧ read data "alerts" = Value al
         ∧ incident m' = (if truthy inc then default JNull inc else data)
         ∧ alerts m' = (if truthy al then default JNull al else JArray []))
  ∧ (incidentData = Value JNull → m' = setLoading false m).
Proof.
  intros m'. subst m'. cbn [loadIncidentData fst snd].
  assert (Hnonnull : ∀ data key, data ≠ JNull → ∃ v, read data key = Value v).
  { intros data key Hne. destruct data; try done; by eexists. }
  split; [done|]. split; [done|]. split; [|split; [|split; [|split; [|split]]]].
  - unfold apply_results, seq, when_fulfilled, assign, or_else, skip.
    destruct incidentData as [data|?], relatedData as [rel|?], pastData as [past|?];
      try destruct data; try destruct rel; try destruct past; simpl;
      repeat split; done.
  - intros (e & ->).
    unfold apply_results, seq, when_fulfilled, assign, or_else, skip.
    destruct relatedData as [rel|?], pastData as [past|?];
      try destruct rel; try destruct past; simpl; repeat split; done.
  - intros (e & ->).
    unfold apply_results, seq, when_fulfilled, assign, or_else, skip.
    destruct incidentData as [data|?], pastData as [past|?];
      try destruct data; try destruct past; simpl; done.
  - intros (e & ->).
    unfold apply_results, seq, when_fulfilled, assign, or_else, skip.
    destruct incidentData as [data|?], relatedData as [rel|?];
      try destruct data; try destruct rel; simpl; done.
  - intros data -> Hne.
    destruct (Hnonnull data "incident" Hne) as (inc & Hinc).
    destruct (Hnonnull data "alerts" Hne) as (al & Hal).
    exists inc, al. split; [done|]. split; [done|]. split.
    + unfold apply_results, seq, when_fulfilled, assign, or_else, skip.
      rewrite Hinc.
      destruct data; try done;
        destruct relatedData as [rel|?], pastData as [past|?];
        try destruct rel; try destruct past; simpl; done.
    + unfold apply_results, seq, when_fulfilled, assign, or_else, skip.
      rewrite Hal.
      destruct data; try done;
        destruct relatedData as [rel|?], pastData as [past|?];
        try destruct rel; try destruct past; simpl; done.
  - by intros ->.
Qed.

End IncidentDetailFacts.

Module AppShellFacts.
Import AppShell.

(** X19 (after logging out the login page comes back).  Whatever the two
    storages held and whoever was logged in, after [handleLogout] and the
    reload it triggers [App] starts unauthenticated, so the login page
    is rendered, with the user name back to ["User"]; the two storages
    have lost the two authentication keys and kept every other key. *)
Theorem logout_shows_the_login_page (b : Browser) (st : AppState) :
  let b' := (logout_and_reload b st).1 in
  (logout_and_reload b st).2 = mkApp false "User"
  ∧ checkAuth b' = false
  ∧ getUser b' = "User"
  ∧ ∀ key, key ≠ "aiops_authenticated" → key ≠ "aiops_user" →
      getItem (localStorage b') key = getItem (localStorage b) key
      ∧ getItem (sessionStorage b') key = getItem (sessionStorage b) key.
Proof.
  intros b'. subst b'. unfold logout_and_reload, mount, handleLogout.
  cbn [fst snd].
  assert (Hauth : checkAuth
            (mkBrowser
               (removeItem "aiops_user" (removeItem "aiops_authenticated" (localStorage b)))
               (removeItem "aiops_user" (removeItem "aiops_authenticated" (sessionStorage b))))
          = false).
  { unfold checkAuth, getItem, removeItem. simpl.
    rewrite !(lookup_delete_ne _ "aiops_user" "aiops_authenticated") by done.
    by rewrite !lookup_delete_eq. }
  assert (Huser : getUser
            (mkBrowser
               (removeItem "aiops_user" (removeItem "aiops_authenticated" (localStorage b)))
               (removeItem "aiops_user" (removeItem "aiops_authenticated" (sessionStorage b))))
          = "User").
  { unfold getUser, getItem, removeItem. simpl. by rewrite !lookup_delete_eq. }
  split_and!; [by rewrite Hauth, Huser|done..|].
  intros key H1 H2. unfold getItem, removeItem. simpl.
  by rewrite !lookup_delete_ne.
Qed.

End AppShellFacts.

(** * The registry after a failed tool listing *)

Module RegistryExtras.
Section RegistryExtras.
Context {W : Type} (env : Env W) (cfg : Config).

(** X20 (a failed tool listing is never retried).  In a process with no
    client yet, when the handshake succeeds and [listTools] rejects,
    [getMCPClient] throws that error with the client already cached and
    [tools] still bound to the array it had.  Every later call returns
    that client with that array at once, and every model invocation of
    every later request offers the schemas of that array: the listing is
    not asked for again, and the loop talks only to the model and to that
    client. *)
Theorem failed_listing_is_never_retried (s : St W) (url : URL) (w1 w2 : W)
    (e : JsError) :
  mcpClient s = None →
  URL_new env (Registry.url_argument cfg) = Value url →
  Client_connect env (clients s) url (world s) = (w1, Value tt) →
  Client_listTools env (clients s) w1 = (w2, Raised e) →
  ∃ s1,
    Registry.getMCPClient env cfg s = (Throw e, s1)
    ∧ log s1 = log s ++ [EvConnect (clients s) url; EvListTools (clients s)]
    ∧ tool_arrays s1 = tool_arrays s
    ∧ Registry.getMCPClient env cfg s1 = (Ret (clients s, tools s), s1)
    ∧ ∀ fuel req r s',
        ChatRoute.POST env cfg fuel req s1 = (r, s') →
        ∃ evs,
          log s' = log s1 ++ evs
          ∧ Forall (ServerExtras.loop_event (clients s)) evs
          ∧ ∀ rq, rq ∈ requests_of evs →
              req_tools rq = LoopFacts.schemas_of (tools s) s.
Proof.
  intros Hnone Hu Hc Hl.
  assert (∃ s1,
    Registry.getMCPClient env cfg s = (Throw e, s1)
    ∧ log s1 = log s ++ [EvConnect (clients s) url; EvListTools (clients s)]
    ∧ tool_arrays s1 = tool_arrays s
    ∧ Registry.getMCPClient env cfg s1 = (Ret (clients s, tools s), s1))
    as (s1 & Hrun & Hlog & Hta & Hagain).
  { destruct s as [w mc t0 n ta ma l]. simpl in *. subst mc.
    unfold Registry.getMCPClient. unfold_monad. simpl.
    rewrite Hu. simpl. rewrite Hc. simpl. rewrite Hl. simpl.
    eexists. split_and!; try done. simpl. by rewrite <-app_assoc. }
  exists s1. split_and!; try done.
  intros fuel req r s' Hpost.
  destruct (ServerExtras.POST_trace env cfg fuel req s1 s1 (clients s) (tools s)
              r s' Hagain Hpost) as (evs & Hlog' & Hev & Hrep & _).
  exists evs. split_and!; try done.
  intros rq Hin.
  destruct (ServerExtras.replayed_fixed cfg _ _ _ Hrep rq Hin) as (h & ->).
  simpl. unfold LoopFacts.schemas_of. by rewrite Hta.
Qed.

End RegistryExtras.

(** The sample provider, with a tool listing that times out. *)
Definition listing_times_out (reply : nat → Outcome ChatResponse)
    : Env Sample.World :=
  {| URL_new := URL_new (Sample.env reply);
     JSON_parse := JSON_parse (Sample.env reply);
     JSON_stringify := JSON_stringify (Sample.env reply);
     Client_connect := Client_connect (Sample.env reply);
     Client_listTools := λ _ w,
       (w, Raised (mkError "McpError" "Request timed out"));
     Client_callTool := Client_callTool (Sample.env reply);
     chat_completions_create := chat_completions_create (Sample.env reply) |}.

(** X20, run: the first request of a process fails in the listing; the
    second is answered, with no tools on offer. *)
Lemma failed_listing_is_never_retried_witness :
  let env := listing_times_out (Sample.script [Sample.says "Hello!"]) in
  ∃ s1,
    Registry.getMCPClient env Sample.cfg Sample.boot
    = (Throw (mkError "McpError" "Request timed out"), s1)
    ∧ Registry.getMCPClient env Sample.cfg s1 = (Ret (0, 0), s1)
    ∧ LoopFacts.schemas_of 0 Sample.boot = [].
Proof.
  intros env.
  destruct (failed_listing_is_never_retried env Sample.cfg Sample.boot
              (mkURL "http://localhost:8000/mcp")
              (Sample.mkWorld 0 0) (Sample.mkWorld 0 0)
              (mkError "McpError" "Request timed out"))
    as (s1 & Hrun & _ & _ & Hagain & _); [reflexivity..|].
  exists s1. split_and!; [exact Hrun | exact Hagain | reflexivity].
Defined.

End RegistryExtras.
